(** * The frame loop of the SDL2 demo (main.go), embedded in Rocq

    The development follows [main.go]: the [Game] struct, the two motion
    routines [moveSprite] and [moveText], the colour randomisation
    [randColor], the event drain and the body of the [for] loop of [Run].

    Go's fixed-width integers are integers of [Z] with the wrap-around
    written out ([Int.int32], [Int.int], [Int.uint8]).  The SDL, mixer and
    random-number libraries are outside the repository: what the program
    asks of them is recorded as a [trace] of calls in the [World], together
    with the little state of theirs that the program can observe (the
    renderer's draw colour, the mixer's music flags, the random source). *)

From Stdlib Require Import String.
From Stdlib Require Import ZArith List Bool Lia.
Import ListNotations.
Local Open Scope Z_scope.

(** ** Machine integers *)

Module Int.

(** Two's complement reading of [z] on [bits] bits. *)
Definition wrap (bits z : Z) : Z :=
  (z + 2 ^ (bits - 1)) mod 2 ^ bits - 2 ^ (bits - 1).

(** Conversions [int32(e)] and [uint8(e)]; [int] is Go's [int] on a 64-bit
    platform. *)
Definition int32 (z : Z) : Z := wrap 32 z.
Definition int (z : Z) : Z := wrap 64 z.
Definition uint8 (z : Z) : Z := z mod 256.

(** [+], [-] on [int32] operands, unary [-] on [int], [/] on [int32]. *)
Definition add32 (a b : Z) : Z := int32 (a + b).
Definition sub32 (a b : Z) : Z := int32 (a - b).
Definition neg (a : Z) : Z := int (- a).
Definition div32 (a b : Z) : Z := int32 (Z.quot a b).

Definition is_int32 (z : Z) : Prop := - 2 ^ 31 <= z < 2 ^ 31.
Definition is_int (z : Z) : Prop := - 2 ^ 63 <= z < 2 ^ 63.

End Int.

(** ** Constants of the program and of the SDL binding *)

Definition windowWidth : Z := 800.
Definition windowHeight : Z := 600.
Definition spriteHeight : Z := 128.
Definition spriteWidth : Z := 128.

(** The key codes, event types and scancodes that [main.go] names, with the
    values the SDL2 headers give them. *)
Module sdl.
Definition K_ESCAPE : Z := 27.
Definition K_SPACE : Z := 32.
Definition K_m : Z := 109.
Definition KEYDOWN : Z := 768.
Definition KEYUP : Z := 769.
Definition SCANCODE_A : nat := 4.
Definition SCANCODE_D : nat := 7.
Definition SCANCODE_S : nat := 22.
Definition SCANCODE_W : nat := 26.
Definition SCANCODE_RIGHT : nat := 79.
Definition SCANCODE_LEFT : nat := 80.
Definition SCANCODE_DOWN : nat := 81.
Definition SCANCODE_UP : nat := 82.
Definition NUM_SCANCODES : nat := 512.
End sdl.

(** ** Data *)

(** [sdl.Rect]: four [int32] fields. *)
Record Rect := mkRect { X : Z; Y : Z; W : Z; H : Z }.

(** [sdl.Color], also the renderer's draw colour. *)
Record Color := mkColor { R : Z; G : Z; B : Z; A : Z }.

(** The fields of [Game] that are plain data.  The handles (window, renderer,
    textures, chunks, music) are pointers into the libraries; calls through
    them appear in the trace under the names below. *)
Record Game := mkGame {
  fontSize : Z;
  fontColor : Color;
  textRect : Rect;
  textVelocity : Z;
  textXVelocity : Z;
  textYVelocity : Z;
  spriteRect : Rect;
  spriteVelocity : Z
}.

Inductive Texture := Background | Text | Sprite.
Inductive Chunk := ChunkGo | ChunkSDL.

(** What [sdl.PollEvent] hands to the type switch of [Run]. *)
Inductive Event :=
| QuitEvent
| KeyboardEvent (sym : Z) (type : Z)
| OtherEvent.

(** Calls into the libraries, in the order the program makes them. *)
Inductive Call :=
| MusicPlay (loops : Z)
| Printf (r : Rect)
| ChunkPlay (c : Chunk)
| SetDrawColor (r g b a : Z)
| ResumeMusic
| PauseMusic
| RendererClear
| RendererCopy (t : Texture) (dst : option Rect)
| RendererPresent
| Delay (ms : Z).

(** The source of [math/rand]: the raw values it will hand out, and how many
    were taken so far. *)
Record Rand := mkRand { source : nat -> Z; taken : nat }.

Record World := mkWorld {
  game : Game;
  drawColor : Color;
  musicPlaying : bool;
  musicPaused : bool;
  rand : Rand;
  trace : list Call
}.

(** What one pass of the [for] loop of [Run] reads from outside: the events
    [sdl.PollEvent] returns before it returns [nil], in arrival order, and
    the array of [sdl.GetKeyboardState]. *)
Record Input := mkInput { events : list Event; keyboard : list Z }.

(** The two states of the loop. *)
Inductive Status := RUNNING | TERMINATED.

(** ** Field updates *)

Definition setX (r : Rect) (v : Z) : Rect := mkRect v (Y r) (W r) (H r).
Definition setY (r : Rect) (v : Z) : Rect := mkRect (X r) v (W r) (H r).

Definition setTextRect (g : Game) (r : Rect) : Game :=
  mkGame (fontSize g) (fontColor g) r (textVelocity g) (textXVelocity g)
         (textYVelocity g) (spriteRect g) (spriteVelocity g).
Definition setTextXVelocity (g : Game) (v : Z) : Game :=
  mkGame (fontSize g) (fontColor g) (textRect g) (textVelocity g) v
         (textYVelocity g) (spriteRect g) (spriteVelocity g).
Definition setTextYVelocity (g : Game) (v : Z) : Game :=
  mkGame (fontSize g) (fontColor g) (textRect g) (textVelocity g)
         (textXVelocity g) v (spriteRect g) (spriteVelocity g).
Definition setSpriteRect (g : Game) (r : Rect) : Game :=
  mkGame (fontSize g) (fontColor g) (textRect g) (textVelocity g)
         (textXVelocity g) (textYVelocity g) r (spriteVelocity g).

Definition setGame (w : World) (g : Game) : World :=
  mkWorld g (drawColor w) (musicPlaying w) (musicPaused w) (rand w) (trace w).
Definition setDrawColor (w : World) (c : Color) : World :=
  mkWorld (game w) c (musicPlaying w) (musicPaused w) (rand w) (trace w).
Definition setMusic (w : World) (playing paused : bool) : World :=
  mkWorld (game w) (drawColor w) playing paused (rand w) (trace w).
Definition setRand (w : World) (r : Rand) : World :=
  mkWorld (game w) (drawColor w) (musicPlaying w) (musicPaused w) r (trace w).
Definition setTrace (w : World) (t : list Call) : World :=
  mkWorld (game w) (drawColor w) (musicPlaying w) (musicPaused w) (rand w) t.

(** ** The monad of the program: state passing over [World] *)

Definition M (T : Type) : Type := World -> T * World.

Definition ret {T} (x : T) : M T := fun w => (x, w).
Definition bind {T U} (m : M T) (k : T -> M U) : M U :=
  fun w => k (fst (m w)) (snd (m w)).

Declare Scope prog_scope.
Delimit Scope prog_scope with prog.
Notation "x <- m ;; k" := (bind m (fun x => k))
  (at level 61, m at next level, right associativity) : prog_scope.
Notation "m ;; k" := (bind m (fun _ => k))
  (at level 61, right associativity) : prog_scope.
Local Open Scope prog_scope.

Definition getGame : M Game := fun w => (game w, w).
Definition modifyGame (f : Game -> Game) : M unit :=
  fun w => (tt, setGame w (f (game w))).
Definition call (c : Call) : M unit :=
  fun w => (tt, setTrace w (trace w ++ [c])).
Definition when (b : bool) (m : M unit) : M unit :=
  if b then m else ret tt.

(** The state after [m], and what [m] added to the trace. *)
Definition exec {T} (m : M T) (w : World) : World := snd (m w).
Definition emitted (w w' : World) : list Call :=
  skipn (length (trace w)) (trace w').

(** ** Library calls that touch state the program can observe *)

(** [rand.Intn(n)]: the next raw value, reduced to [0, n). *)
Definition Intn (n : Z) : M Z :=
  fun w => (source (rand w) (taken (rand w)) mod n,
            setRand w (mkRand (source (rand w)) (S (taken (rand w))))).

(** [g.renderer.SetDrawColor(r, g, b, a)]. *)
Definition RendererSetDrawColor (r g b a : Z) : M unit :=
  fun w => (tt, setTrace (setDrawColor w (mkColor r g b a))
                         (trace w ++ [SetDrawColor r g b a])).

(** [g.music.Play(loops)], [mix.PlayingMusic()], [mix.PausedMusic()],
    [mix.ResumeMusic()], [mix.PauseMusic()].  A paused music still counts as
    playing for the mixer. *)
Definition musicPlay (loops : Z) : M unit :=
  fun w => (tt, setTrace (setMusic w true false) (trace w ++ [MusicPlay loops])).
Definition PlayingMusic : M bool := fun w => (musicPlaying w, w).
Definition PausedMusic : M bool := fun w => (musicPaused w, w).
Definition mixResumeMusic : M unit :=
  fun w => (tt, setTrace (setMusic w (musicPlaying w) false)
                         (trace w ++ [ResumeMusic])).
Definition mixPauseMusic : M unit :=
  fun w => (tt, setTrace (setMusic w (musicPlaying w) true)
                         (trace w ++ [PauseMusic])).

(** [keyboard[sc] != 0].  The array of [sdl.GetKeyboardState] has
    [sdl.NUM_SCANCODES] entries, so every index the program uses is inside
    it. *)
Definition held (keyboard : list Z) (sc : nat) : bool :=
  negb (nth sc keyboard 0 =? 0).

(** ** The program *)

(** [Game.Init], on the path where every library call succeeds; [tw] and
    [th] are the width and height of the rendered text surface. *)
Definition Init (tw th : Z) : Game :=
  let textVelocity := 2 in
  mkGame 80 (mkColor 255 255 255 255)
    (mkRect (Int.div32 (Int.sub32 windowWidth tw) 2)
            (Int.div32 (Int.sub32 windowHeight th) 2) tw th)
    textVelocity textVelocity textVelocity
    (mkRect 0 0 spriteWidth spriteHeight)
    10.

(** [Game.randColor] (its result is always [nil]). *)
Definition randColor : M unit :=
  r <- Intn 256 ;;
  g <- Intn 256 ;;
  b <- Intn 256 ;;
  RendererSetDrawColor (Int.uint8 r) (Int.uint8 g) (Int.uint8 b) 0.

(** [Game.pauseUnpauseMusic]. *)
Definition pauseUnpauseMusic : M unit :=
  playing <- PlayingMusic ;;
  if playing then
    paused <- PausedMusic ;;
    if paused then mixResumeMusic else mixPauseMusic
  else ret tt.

(** [Game.moveSprite]. *)
Definition moveSprite (keyboard : list Z) : M unit :=
  g <- getGame ;;
  when (held keyboard sdl.SCANCODE_UP || held keyboard sdl.SCANCODE_W)
    (when ((Y (spriteRect g) >=? 0) &&
           (Int.sub32 (Y (spriteRect g)) (Int.int32 (spriteVelocity g)) >=? 0))
       (modifyGame (fun g => setSpriteRect g (setY (spriteRect g)
          (Int.sub32 (Y (spriteRect g)) (Int.int32 (spriteVelocity g))))))) ;;
  g <- getGame ;;
  when (held keyboard sdl.SCANCODE_DOWN || held keyboard sdl.SCANCODE_S)
    (when ((Int.add32 (Y (spriteRect g)) (H (spriteRect g)) <? windowHeight) &&
           (Int.add32 (Int.add32 (Y (spriteRect g)) (H (spriteRect g)))
                      (Int.int32 (spriteVelocity g)) <=? windowHeight))
       (modifyGame (fun g => setSpriteRect g (setY (spriteRect g)
          (Int.add32 (Y (spriteRect g)) (Int.int32 (spriteVelocity g))))))) ;;
  g <- getGame ;;
  when (held keyboard sdl.SCANCODE_LEFT || held keyboard sdl.SCANCODE_A)
    (when ((X (spriteRect g) >? 0) &&
           (Int.sub32 (X (spriteRect g)) (Int.int32 (spriteVelocity g)) >=? 0))
       (modifyGame (fun g => setSpriteRect g (setX (spriteRect g)
          (Int.sub32 (X (spriteRect g)) (Int.int32 (spriteVelocity g))))))) ;;
  g <- getGame ;;
  when (held keyboard sdl.SCANCODE_RIGHT || held keyboard sdl.SCANCODE_D)
    (when ((Int.add32 (X (spriteRect g)) (W (spriteRect g)) <? windowWidth) &&
           (Int.add32 (Int.add32 (X (spriteRect g)) (W (spriteRect g)))
                      (Int.int32 (spriteVelocity g)) <=? windowWidth))
       (modifyGame (fun g => setSpriteRect g (setX (spriteRect g)
          (Int.add32 (X (spriteRect g)) (Int.int32 (spriteVelocity g))))))) ;;
  g <- getGame ;;
  call (Printf (spriteRect g)).

(** [Game.moveText]. *)
Definition moveText : M unit :=
  modifyGame (fun g => setTextRect g (setX (textRect g)
    (Int.add32 (X (textRect g)) (Int.int32 (textXVelocity g))))) ;;
  modifyGame (fun g => setTextRect g (setY (textRect g)
    (Int.add32 (Y (textRect g)) (Int.int32 (textYVelocity g))))) ;;
  g <- getGame ;;
  when ((X (textRect g) <=? 0) ||
        (Int.add32 (X (textRect g)) (W (textRect g)) >=? windowWidth))
    (modifyGame (fun g => setTextXVelocity g (Int.neg (textXVelocity g))) ;;
     call (ChunkPlay ChunkSDL)) ;;
  g <- getGame ;;
  when ((Y (textRect g) <=? 0) ||
        (Int.add32 (Y (textRect g)) (H (textRect g)) >=? windowHeight))
    (modifyGame (fun g => setTextYVelocity g (Int.neg (textYVelocity g))) ;;
     call (ChunkPlay ChunkSDL)).

(** The inner [for event := sdl.PollEvent(); event != nil; ...] of [Run] over
    the events of this pass; the result says whether a [return] was taken. *)
Fixpoint pollEvents (queue : list Event) : M bool :=
  match queue with
  | [] => ret false
  | QuitEvent :: _ => ret true
  | KeyboardEvent sym type :: rest =>
      if (sym =? sdl.K_ESCAPE) && (type =? sdl.KEYDOWN) then ret true
      else
        when ((sym =? sdl.K_SPACE) && (type =? sdl.KEYDOWN))
          (call (ChunkPlay ChunkGo) ;; randColor) ;;
        when ((sym =? sdl.K_m) && (type =? sdl.KEYDOWN))
          pauseUnpauseMusic ;;
        pollEvents rest
  | OtherEvent :: rest => pollEvents rest
  end.

(** The test of line 232 on the keyboard array. *)
Definition movementKeyHeld (keyboard : list Z) : bool :=
  held keyboard sdl.SCANCODE_UP || held keyboard sdl.SCANCODE_DOWN ||
  held keyboard sdl.SCANCODE_LEFT || held keyboard sdl.SCANCODE_RIGHT ||
  held keyboard sdl.SCANCODE_W || held keyboard sdl.SCANCODE_A ||
  held keyboard sdl.SCANCODE_S || held keyboard sdl.SCANCODE_D.

(** One pass of the outer [for] of [Run]; the result says whether [Run]
    returned during it. *)
Definition frame (inp : Input) : M bool :=
  quit <- pollEvents (events inp) ;;
  if quit then ret true
  else
    when (movementKeyHeld (keyboard inp)) (moveSprite (keyboard inp)) ;;
    call RendererClear ;;
    call (RendererCopy Background None) ;;
    moveText ;;
    g <- getGame ;;
    call (RendererCopy Text (Some (textRect g))) ;;
    g <- getGame ;;
    call (RendererCopy Sprite (Some (spriteRect g))) ;;
    call RendererPresent ;;
    call (Delay 20) ;;
    ret false.

(** The outer [for] over the inputs of successive passes.  [RUNNING] means
    that the loop is still going when the inputs given are used up. *)
Fixpoint loop (inputs : list Input) : M Status :=
  match inputs with
  | [] => ret RUNNING
  | inp :: rest =>
      quit <- frame inp ;;
      if quit then ret TERMINATED else loop rest
  end.

(** [Game.Run], as the goroutine that calls it runs it.  The goroutine of
    the ticker, which calls [randColor] once a second beside the loop, is not
    part of it: across a run, the draw colour and the number of values taken
    from the random source are those of this goroutine alone, and the
    statements on [Run] and on the loop say nothing of either.  The error
    that [Play] may return is dropped by the source; the mixer is taken to
    start the music. *)
Definition Run (inputs : list Input) : M Status :=
  musicPlay (-1) ;;
  g <- getGame ;;
  call (Printf (spriteRect g)) ;;
  loop inputs.

(** The world in which [Run] starts: [NewGame] went through, a renderer with
    draw colour [c], no music yet, a random source [src]. *)
Definition initial (tw th : Z) (c : Color) (src : nat -> Z) : World :=
  mkWorld (Init tw th) c false false (mkRand src 0) [].

(** [n] calls of [m] in a row. *)
Fixpoint times (n : nat) (m : M unit) : M unit :=
  match n with
  | O => ret tt
  | S n' => m ;; times n' m
  end.

(** ** Notions the statements below use *)

(** A rectangle lies fully inside the window. *)
Definition in_arena (r : Rect) : Prop :=
  0 <= X r /\ X r + W r <= windowWidth /\
  0 <= Y r /\ Y r + H r <= windowHeight.

(** The four fields are values of [int32]. *)
Definition rect_wf (r : Rect) : Prop :=
  Int.is_int32 (X r) /\ Int.is_int32 (Y r) /\
  Int.is_int32 (W r) /\ Int.is_int32 (H r).

(** A quit transition: the window was closed, or escape went down. *)
Definition is_quit (e : Event) : bool :=
  match e with
  | QuitEvent => true
  | KeyboardEvent sym type => (sym =? sdl.K_ESCAPE) && (type =? sdl.KEYDOWN)
  | OtherEvent => false
  end.

(** Calls that clear, draw or present. *)
Definition is_render (c : Call) : bool :=
  match c with
  | RendererClear | RendererCopy _ _ | RendererPresent => true
  | _ => false
  end.

(** Calls the event drain can make. *)
Definition is_drain_call (c : Call) : bool :=
  match c with
  | ChunkPlay ChunkGo | SetDrawColor _ _ _ _ | ResumeMusic | PauseMusic => true
  | _ => false
  end.

(** [a] occurs in [tr] somewhere before an occurrence of [b]. *)
Definition before (a b : Call) (tr : list Call) : Prop :=
  exists l1 l2 l3, tr = l1 ++ a :: l2 ++ b :: l3.

(** A pass with nothing in the event queue and no movement key down. *)
Definition idle (inp : Input) : Prop :=
  events inp = [] /\ movementKeyHeld (keyboard inp) = false.

(** The two tests of [moveText], on a text rectangle as it stands after the
    move. *)
Definition wallX (r : Rect) : bool :=
  (X r <=? 0) || (Int.add32 (X r) (W r) >=? windowWidth).
Definition wallY (r : Rect) : bool :=
  (Y r <=? 0) || (Int.add32 (Y r) (H r) >=? windowHeight).

(** The tests do not change the rectangle, so they held in the pass that
    produced [g] exactly when that pass flipped a velocity. *)
Definition atWall (g : Game) : bool :=
  wallX (textRect g) || wallY (textRect g).

(** Nothing wraps in a call of [moveText]: the velocities fit [int32], and
    so do the sums of position and velocity and of the new position and the
    size.  Every text rectangle near the window with a velocity of a few
    pixels is of this kind. *)
Definition no_wrap (g : Game) : Prop :=
  let r := textRect g in
  Int.is_int32 (textXVelocity g) /\ Int.is_int32 (textYVelocity g) /\
  Int.is_int32 (X r + textXVelocity g) /\
  Int.is_int32 (Y r + textYVelocity g) /\
  Int.is_int32 (X r + textXVelocity g + W r) /\
  Int.is_int32 (Y r + textYVelocity g + H r).

(** The sound of a bounce of the text. *)
Definition is_wall_sound (c : Call) : bool :=
  match c with ChunkPlay ChunkSDL => true | _ => false end.

(** The rule of the specification for a move in one direction: it is
    applied only if the moved rectangle stays within [0, bound] on that axis;
    otherwise the position stays what it was. *)
Definition try_move (bound size pos delta : Z) : Z :=
  if (0 <=? pos + delta) && (pos + delta + size <=? bound)
  then pos + delta else pos.

(** The two directions of one axis, each tried only when one of its keys is
    held, the one towards 0 first ([back]), then the other ([forth]). *)
Definition axis_move (bound size step pos : Z) (back forth : bool) : Z :=
  let p := if back then try_move bound size pos (- step) else pos in
  if forth then try_move bound size p step else p.

(** What the statements on the sprite assume of the game before the call: the
    velocity step of [Init], a size that is not negative, and a rectangle
    inside the window. *)
Definition sprite_ready (g : Game) : Prop :=
  spriteVelocity g = 10 /\ 0 <= W (spriteRect g) /\ 0 <= H (spriteRect g) /\
  in_arena (spriteRect g).

(** The sprite of [Init] on the grid of its velocity step. *)
Definition sprite_on_grid (g : Game) : Prop :=
  spriteVelocity g = 10 /\
  W (spriteRect g) = spriteWidth /\ H (spriteRect g) = spriteHeight /\
  (X (spriteRect g) mod 10 = 0 /\ 0 <= X (spriteRect g) <= 670) /\
  (Y (spriteRect g) mod 10 = 0 /\ 0 <= Y (spriteRect g) <= 470).

(** One axis of the text between two passes: moving forth it has not yet
    passed the far wall, moving back it has not yet passed the near one. *)
Definition axis_near (bound size pos v : Z) : Prop :=
  (v = 2 /\ -1 <= pos /\ pos + size <= bound) \/
  (v = -2 /\ 1 <= pos /\ pos + size <= bound + 2).

Definition text_near_arena (g : Game) : Prop :=
  0 <= W (textRect g) <= windowWidth /\
  0 <= H (textRect g) <= windowHeight /\
  axis_near windowWidth (W (textRect g)) (X (textRect g)) (textXVelocity g) /\
  axis_near windowHeight (H (textRect g)) (Y (textRect g)) (textYVelocity g).

(** The scenario of the specification: call [moveText] until the pass in
    which [x + w >= windowWidth] holds for the first time; the result is the
    world before that pass and the world after it. *)
Fixpoint untilRightWall (fuel : nat) (w : World) : option (World * World) :=
  match fuel with
  | O => None
  | S fuel' =>
      let w' := exec moveText w in
      if X (textRect (game w')) + W (textRect (game w')) >=? windowWidth
      then Some (w, w')
      else untilRightWall fuel' w'
  end.

(** Concrete inputs: a keyboard array with the given scancodes down, a pass
    without any input, and a starting world. *)
Definition keysDown (scs : list nat) : list Z :=
  map (fun i => if existsb (Nat.eqb i) scs then 1 else 0)
      (seq 0 sdl.NUM_SCANCODES).
Definition noInput : Input := mkInput [] (keysDown []).
Definition black : Color := mkColor 0 0 0 255.
Definition start (tw th : Z) : World := initial tw th black (fun _ => 0).

(** A precondition, a program of the monad, a postcondition. *)
Definition triple {T} (P : World -> Prop) (m : M T) (Q : T -> World -> Prop)
  : Prop :=
  forall w, P w -> Q (fst (m w)) (snd (m w)).

(** ** Notions for further properties of the loop *)

(** The key-down events the drain reacts to besides escape. *)
Definition is_m_down (e : Event) : bool :=
  match e with
  | KeyboardEvent sym type => (sym =? sdl.K_m) && (type =? sdl.KEYDOWN)
  | _ => false
  end.
Definition is_space_down (e : Event) : bool :=
  match e with
  | KeyboardEvent sym type => (sym =? sdl.K_SPACE) && (type =? sdl.KEYDOWN)
  | _ => false
  end.

(** The events of a queue that come before its first quit transition. *)
Fixpoint handled (queue : list Event) : list Event :=
  match queue with
  | [] => []
  | e :: rest => if is_quit e then [] else e :: handled rest
  end.

(** A pass whose events make [Run] return. *)
Definition quits (inp : Input) : bool := existsb is_quit (events inp).

(** The passes that are completed before the first one that quits, and the
    events handled up to and in that one. *)
Fixpoint passes_before_quit (inputs : list Input) : nat :=
  match inputs with
  | [] => O
  | inp :: rest => if quits inp then O else S (passes_before_quit rest)
  end.

(** The four tests of [moveSprite] on a keyboard array: up, down, left,
    right. *)
Definition directions (keyboard : list Z) : bool * bool * bool * bool :=
  (held keyboard sdl.SCANCODE_UP || held keyboard sdl.SCANCODE_W,
   held keyboard sdl.SCANCODE_DOWN || held keyboard sdl.SCANCODE_S,
   held keyboard sdl.SCANCODE_LEFT || held keyboard sdl.SCANCODE_A,
   held keyboard sdl.SCANCODE_RIGHT || held keyboard sdl.SCANCODE_D).

(** Kinds of calls of a pass. *)
Definition is_present (c : Call) : bool :=
  match c with RendererPresent => true | _ => false end.
Definition is_clear (c : Call) : bool :=
  match c with RendererClear => true | _ => false end.
Definition is_copy (c : Call) : bool :=
  match c with RendererCopy _ _ => true | _ => false end.
Definition is_delay (c : Call) : bool :=
  match c with Delay _ => true | _ => false end.
Definition is_go_sound (c : Call) : bool :=
  match c with ChunkPlay ChunkGo => true | _ => false end.
Definition is_music_call (c : Call) : bool :=
  match c with ResumeMusic | PauseMusic => true | _ => false end.

(** One axis of a text that is narrower than the window by at least three
    pixels, between two passes. *)
Definition axis_tight (bound size pos v : Z) : Prop :=
  (v = 2 /\ -1 <= pos /\ pos + size <= bound - 1) \/
  (v = -2 /\ 1 <= pos /\ pos + size <= bound + 1).

Definition text_tight (g : Game) : Prop :=
  0 <= W (textRect g) <= windowWidth - 3 /\
  0 <= H (textRect g) <= windowHeight - 3 /\
  axis_tight windowWidth (W (textRect g)) (X (textRect g)) (textXVelocity g) /\
  axis_tight windowHeight (H (textRect g)) (Y (textRect g)) (textYVelocity g).

(** What [Run] never changes of the game of [Init]. *)
Definition text_shape (tw th : Z) (g : Game) : Prop :=
  fontSize g = 80 /\ textVelocity g = 2 /\ spriteVelocity g = 10 /\
  W (textRect g) = tw /\ H (textRect g) = th /\
  (textXVelocity g = 2 \/ textXVelocity g = -2) /\
  (textYVelocity g = 2 \/ textYVelocity g = -2).


(** A call that neither the drain nor the motion routines make. *)
Definition is_pass_call (c : Call) : bool :=
  is_clear c || is_copy c || is_present c || is_delay c.

(** A call without the rectangle it draws to. *)
Definition forget_rect (c : Call) : Call :=
  match c with
  | RendererCopy t _ => RendererCopy t None
  | _ => c
  end.

(** Passes with one arrow key down and no event. *)
Definition rightPass : Input := mkInput [] (keysDown [sdl.SCANCODE_RIGHT]).
Definition downPass : Input := mkInput [] (keysDown [sdl.SCANCODE_DOWN]).

(** ** Start-up and tear-down: [initSDL], [closeSDL], [Game.Init],
    [NewGame], [Game.Close] and [main]

    What these functions ask of the libraries is a log of steps.  Every call
    site that can fail is named by the resource it acquires; whether it
    fails, and with which error text, is given from outside ([fails]). *)

Module Life.

Inductive Resource :=
| LibSDL         (* sdl.Init *)
| LibIMG         (* img.Init *)
| LibTTF         (* ttf.Init *)
| LibMIX         (* mix.Init *)
| Window         (* sdl.CreateWindow *)
| Renderer       (* sdl.CreateRenderer *)
| BackgroundTex  (* img.LoadTexture, the background *)
| IconSurface    (* img.Load, the icon *)
| Font           (* ttf.OpenFont *)
| TextSurface    (* font.RenderUTF8Blended *)
| TextTex        (* renderer.CreateTextureFromSurface *)
| SpriteTex      (* img.LoadTexture, the sprite *)
| Audio          (* mix.OpenAudio *)
| GoChunk        (* mix.LoadWAV, Go.ogg *)
| SDLChunk       (* mix.LoadWAV, SDL.ogg *)
| Music.         (* mix.LoadMUS *)

Scheme Equality for Resource.

Inductive Step :=
| Opened (r : Resource)      (* the call that acquires [r] succeeded *)
| Failed (r : Resource)      (* it returned an error *)
| Closed (r : Resource)      (* Destroy, Free, Quit or CloseAudio of [r] *)
| IconSet                    (* g.window.SetIcon(g.icon) *)
| MusicHalted                (* mix.HaltMusic() *)
| ChannelHalted (ch : Z)     (* mix.HaltChannel(ch) *)
| InLoop (c : Call).         (* a call made by [Run] *)

(** The [Game] struct as [Init] fills it: a handle is [true] when it is not
    nil, a pointer to data is [None] when it is nil. *)
Record GameObj := mkGameObj {
  window : bool;
  renderer : bool;
  background : bool;
  icon : bool;
  fontSize : Z;
  fontColor : option Color;
  text : bool;
  textRect : option Rect;
  textVelocity : Z;
  textXVelocity : Z;
  textYVelocity : Z;
  sprite : bool;
  spriteRect : option Rect;
  spriteVelocity : Z;
  chunkGo : bool;
  chunkSDL : bool;
  music : bool
}.

(** [Game{}]. *)
Definition zeroGame : GameObj :=
  mkGameObj false false false false 0 None false None 0 0 0 false None 0
            false false false.

Definition setWindow (v : bool) (g : GameObj) : GameObj :=
  mkGameObj v (renderer g) (background g) (icon g) (fontSize g) (fontColor g)
    (text g) (textRect g) (textVelocity g) (textXVelocity g) (textYVelocity g)
    (sprite g) (spriteRect g) (spriteVelocity g) (chunkGo g) (chunkSDL g)
    (music g).
Definition setRenderer (v : bool) (g : GameObj) : GameObj :=
  mkGameObj (window g) v (background g) (icon g) (fontSize g) (fontColor g)
    (text g) (textRect g) (textVelocity g) (textXVelocity g) (textYVelocity g)
    (sprite g) (spriteRect g) (spriteVelocity g) (chunkGo g) (chunkSDL g)
    (music g).
Definition setBackground (v : bool) (g : GameObj) : GameObj :=
  mkGameObj (window g) (renderer g) v (icon g) (fontSize g) (fontColor g)
    (text g) (textRect g) (textVelocity g) (textXVelocity g) (textYVelocity g)
    (sprite g) (spriteRect g) (spriteVelocity g) (chunkGo g) (chunkSDL g)
    (music g).
Definition setIcon (v : bool) (g : GameObj) : GameObj :=
  mkGameObj (window g) (renderer g) (background g) v (fontSize g) (fontColor g)
    (text g) (textRect g) (textVelocity g) (textXVelocity g) (textYVelocity g)
    (sprite g) (spriteRect g) (spriteVelocity g) (chunkGo g) (chunkSDL g)
    (music g).
Definition setFontSize (v : Z) (g : GameObj) : GameObj :=
  mkGameObj (window g) (renderer g) (background g) (icon g) v (fontColor g)
    (text g) (textRect g) (textVelocity g) (textXVelocity g) (textYVelocity g)
    (sprite g) (spriteRect g) (spriteVelocity g) (chunkGo g) (chunkSDL g)
    (music g).
Definition setFontColor (v : option Color) (g : GameObj) : GameObj :=
  mkGameObj (window g) (renderer g) (background g) (icon g) (fontSize g) v
    (text g) (textRect g) (textVelocity g) (textXVelocity g) (textYVelocity g)
    (sprite g) (spriteRect g) (spriteVelocity g) (chunkGo g) (chunkSDL g)
    (music g).
Definition setText (v : bool) (g : GameObj) : GameObj :=
  mkGameObj (window g) (renderer g) (background g) (icon g) (fontSize g)
    (fontColor g) v (textRect g) (textVelocity g) (textXVelocity g)
    (textYVelocity g) (sprite g) (spriteRect g) (spriteVelocity g) (chunkGo g)
    (chunkSDL g) (music g).
Definition setTextRect (v : option Rect) (g : GameObj) : GameObj :=
  mkGameObj (window g) (renderer g) (background g) (icon g) (fontSize g)
    (fontColor g) (text g) v (textVelocity g) (textXVelocity g)
    (textYVelocity g) (sprite g) (spriteRect g) (spriteVelocity g) (chunkGo g)
    (chunkSDL g) (music g).
Definition setTextVelocity (v : Z) (g : GameObj) : GameObj :=
  mkGameObj (window g) (renderer g) (background g) (icon g) (fontSize g)
    (fontColor g) (text g) (textRect g) v (textXVelocity g)
    (textYVelocity g) (sprite g) (spriteRect g) (spriteVelocity g) (chunkGo g)
    (chunkSDL g) (music g).
Definition setTextXVelocity (v : Z) (g : GameObj) : GameObj :=
  mkGameObj (window g) (renderer g) (background g) (icon g) (fontSize g)
    (fontColor g) (text g) (textRect g) (textVelocity g) v
    (textYVelocity g) (sprite g) (spriteRect g) (spriteVelocity g) (chunkGo g)
    (chunkSDL g) (music g).
Definition setTextYVelocity (v : Z) (g : GameObj) : GameObj :=
  mkGameObj (window g) (renderer g) (background g) (icon g) (fontSize g)
    (fontColor g) (text g) (textRect g) (textVelocity g) (textXVelocity g)
    v (sprite g) (spriteRect g) (spriteVelocity g) (chunkGo g)
    (chunkSDL g) (music g).
Definition setSprite (v : bool) (g : GameObj) : GameObj :=
  mkGameObj (window g) (renderer g) (background g) (icon g) (fontSize g)
    (fontColor g) (text g) (textRect g) (textVelocity g) (textXVelocity g)
    (textYVelocity g) v (spriteRect g) (spriteVelocity g) (chunkGo g)
    (chunkSDL g) (music g).
Definition setSpriteRect (v : option Rect) (g : GameObj) : GameObj :=
  mkGameObj (window g) (renderer g) (background g) (icon g) (fontSize g)
    (fontColor g) (text g) (textRect g) (textVelocity g) (textXVelocity g)
    (textYVelocity g) (sprite g) v (spriteVelocity g) (chunkGo g)
    (chunkSDL g) (music g).
Definition setSpriteVelocity (v : Z) (g : GameObj) : GameObj :=
  mkGameObj (window g) (renderer g) (background g) (icon g) (fontSize g)
    (fontColor g) (text g) (textRect g) (textVelocity g) (textXVelocity g)
    (textYVelocity g) (sprite g) (spriteRect g) v (chunkGo g)
    (chunkSDL g) (music g).
Definition setChunkGo (v : bool) (g : GameObj) : GameObj :=
  mkGameObj (window g) (renderer g) (background g) (icon g) (fontSize g)
    (fontColor g) (text g) (textRect g) (textVelocity g) (textXVelocity g)
    (textYVelocity g) (sprite g) (spriteRect g) (spriteVelocity g) v
    (chunkSDL g) (music g).
Definition setChunkSDL (v : bool) (g : GameObj) : GameObj :=
  mkGameObj (window g) (renderer g) (background g) (icon g) (fontSize g)
    (fontColor g) (text g) (textRect g) (textVelocity g) (textXVelocity g)
    (textYVelocity g) (sprite g) (spriteRect g) (spriteVelocity g) (chunkGo g)
    v (music g).
Definition setMusicHandle (v : bool) (g : GameObj) : GameObj :=
  mkGameObj (window g) (renderer g) (background g) (icon g) (fontSize g)
    (fontColor g) (text g) (textRect g) (textVelocity g) (textXVelocity g)
    (textYVelocity g) (sprite g) (spriteRect g) (spriteVelocity g) (chunkGo g)
    (chunkSDL g) v.

(** The data of the struct as the loop of [Run] uses it, when no pointer it
    follows is nil; and the struct with the data the loop leaves. *)
Definition toGame (g : GameObj) : option Game :=
  match fontColor g, textRect g, spriteRect g with
  | Some fc, Some tr, Some sr =>
      Some (mkGame (fontSize g) fc tr (textVelocity g) (textXVelocity g)
                   (textYVelocity g) sr (spriteVelocity g))
  | _, _, _ => None
  end.
Definition withData (g : GameObj) (d : Game) : GameObj :=
  match d with
  | mkGame fs fc tr tv vx vy sr sv =>
      mkGameObj (window g) (renderer g) (background g) (icon g) fs (Some fc)
        (text g) (Some tr) tv vx vy (sprite g) (Some sr) sv (chunkGo g)
        (chunkSDL g) (music g)
  end.

(** The process: the one [Game] value of [main], and the log. *)
Record Proc := mkProc { obj : GameObj; log : list Step }.

(** How a function ends: it returns, it panics, or it has not come back
    (the loop of [Run] is still going). *)
Inductive Ctl (T : Type) :=
| Done (x : T)
| Panic (e : string)
| Blocked.
Arguments Done {T} x.
Arguments Panic {T} e.
Arguments Blocked {T}.

Definition L (T : Type) : Type := Proc -> Ctl T * Proc.

Definition lret {T} (x : T) : L T := fun p => (Done x, p).
Definition lbind {T U} (m : L T) (k : T -> L U) : L U :=
  fun p =>
    match m p with
    | (Done x, p') => k x p'
    | (Panic e, p') => (Panic e, p')
    | (Blocked, p') => (Blocked, p')
    end.
Definition panic {T} (e : string) : L T := fun p => (Panic e, p).

Declare Scope life_scope.
Delimit Scope life_scope with life.
Notation "x <- m ;; k" := (lbind m (fun x => k))
  (at level 61, m at next level, right associativity) : life_scope.
Notation "m ;; k" := (lbind m (fun _ => k))
  (at level 61, right associativity) : life_scope.
Local Open Scope life_scope.

Definition getObj : L GameObj := fun p => (Done (obj p), p).
Definition modify (f : GameObj -> GameObj) : L unit :=
  fun p => (Done tt, mkProc (f (obj p)) (log p)).
Definition step (s : Step) : L unit :=
  fun p => (Done tt, mkProc (obj p) (log p ++ [s])).
Definition lwhen (b : bool) (m : L unit) : L unit :=
  if b then m else lret tt.

(** [defer d] followed by the rest of the function body: [d] runs when the
    body returns or panics, not while it has not come back. *)
Definition defer {T} (d : L unit) (rest : L T) : L T :=
  fun p =>
    match rest p with
    | (Blocked, p') => (Blocked, p')
    | (r, p') => (r, snd (d p'))
    end.

(** [if err != nil { return fmt.Errorf(msg + "%v", err) }]. *)
Definition orReturn (err : option string) (msg : string)
           (k : L (option string)) : L (option string) :=
  match err with
  | Some e => lret (Some (String.append msg e))
  | None => k
  end.
Arguments orReturn err msg%_string k.
Notation "'check' ( err , msg ) ;; k" := (orReturn err msg k)
  (at level 61, right associativity) : life_scope.

Definition isNil {T} (o : option T) : bool :=
  match o with Some _ => false | None => true end.

Section Env.
(** Which call sites fail, with the text of the error, and the size of the
    surface the font renders. *)
Variable fails : Resource -> option string.
Variables surfaceW surfaceH : Z.
(** The renderer's first draw colour, the random source, and what the loop
    reads in its passes. *)
Variable colour : Color.
Variable src : nat -> Z.
Variable inputs : list Input.

(** A call that can fail: its error, nil when it went through. *)
Definition attempt (r : Resource) : L (option string) :=
  fun p =>
    match fails r with
    | None => (Done None, mkProc (obj p) (log p ++ [Opened r]))
    | Some e => (Done (Some e), mkProc (obj p) (log p ++ [Failed r]))
    end.

(** [initSDL]. *)
Definition initSDL : L (option string) :=
  err <- attempt LibSDL ;;
  check (err, "Error initializing SDL2: ") ;;
  err <- attempt LibIMG ;;
  check (err, "Error initializing SDL_image: ") ;;
  err <- attempt LibTTF ;;
  check (err, "Error initializing SDL_ttf: ") ;;
  err <- attempt LibMIX ;;
  check (err, "Error initializing SDL_mixer: ") ;;
  lret None.

(** [closeSDL]. *)
Definition closeSDL : L unit :=
  step (Closed LibTTF) ;;
  step (Closed Audio) ;;
  step (Closed LibMIX) ;;
  step (Closed LibIMG) ;;
  step (Closed LibSDL).

(** [Game.Init]. *)
Definition Init : L (option string) :=
  modify (setFontSize 80) ;;
  modify (setFontColor (Some (mkColor 255 255 255 255))) ;;
  modify (setSpriteVelocity 10) ;;
  modify (setTextVelocity 2) ;;
  g <- getObj ;; modify (setTextXVelocity (textVelocity g)) ;;
  g <- getObj ;; modify (setTextYVelocity (textVelocity g)) ;;
  err <- attempt Window ;; modify (setWindow (isNil err)) ;;
  check (err, "Error creating window: ") ;;
  err <- attempt Renderer ;; modify (setRenderer (isNil err)) ;;
  check (err, "Error creating renderer: ") ;;
  err <- attempt BackgroundTex ;; modify (setBackground (isNil err)) ;;
  check (err, "Error loading background image: ") ;;
  err <- attempt IconSurface ;; modify (setIcon (isNil err)) ;;
  check (err, "Error loading icon image: ") ;;
  step IconSet ;;
  err <- attempt Font ;;
  check (err, "Error loading font: ") ;;
  err <- attempt TextSurface ;;
  check (err, "Error creating font surface: ") ;;
  defer (step (Closed TextSurface))
    (err <- attempt TextTex ;; modify (setText (isNil err)) ;;
     check (err, "Error creating font texture: ") ;;
     modify (setTextRect (Some
       (mkRect (Int.div32 (Int.sub32 windowWidth surfaceW) 2)
               (Int.div32 (Int.sub32 windowHeight surfaceH) 2)
               surfaceW surfaceH))) ;;
     err <- attempt SpriteTex ;; modify (setSprite (isNil err)) ;;
     check (err, "Error loading sprite image: ") ;;
     modify (setSpriteRect (Some (mkRect 0 0 spriteWidth spriteHeight))) ;;
     err <- attempt Audio ;;
     check (err, "Error initializing SDL_mixer audio: ") ;;
     err <- attempt GoChunk ;; modify (setChunkGo (isNil err)) ;;
     check (err, "Error loading sound chunk: ") ;;
     err <- attempt SDLChunk ;; modify (setChunkSDL (isNil err)) ;;
     check (err, "Error loading sound chunk: ") ;;
     err <- attempt Music ;; modify (setMusicHandle (isNil err)) ;;
     check (err, "Error loading music: ") ;;
     lret None).

(** [NewGame]; the pointer it returns is the one [Game] of the process. *)
Definition NewGame : L unit :=
  modify (fun _ => zeroGame) ;;
  err <- Init ;;
  match err with
  | Some e => panic e
  | None => lret tt
  end.

(** [Game.Close]; [g] tells whether the receiver is not nil. *)
Definition Close (g : bool) : L unit :=
  if negb g then lret tt
  else
    step MusicHalted ;;
    step (ChannelHalted (-1)) ;;
    o <- getObj ;; lwhen (window o) (step (Closed Window)) ;;
    o <- getObj ;; lwhen (renderer o) (step (Closed Renderer)) ;;
    o <- getObj ;; lwhen (background o) (step (Closed BackgroundTex)) ;;
    o <- getObj ;; lwhen (icon o) (step (Closed IconSurface)) ;;
    o <- getObj ;; lwhen (negb (isNil (textRect o))) (modify (setTextRect None)) ;;
    o <- getObj ;; lwhen (text o) (step (Closed TextTex)) ;;
    o <- getObj ;; lwhen (sprite o) (step (Closed SpriteTex)) ;;
    o <- getObj ;; lwhen (chunkGo o) (step (Closed GoChunk)) ;;
    o <- getObj ;; lwhen (chunkSDL o) (step (Closed SDLChunk)) ;;
    o <- getObj ;; lwhen (music o) (step (Closed Music)).

(** [g.Run()] inside the process: the loop of [Run] over the data of the
    game, its calls entered in the log.  A nil data pointer cannot be
    followed. *)
Definition RunIn : L unit :=
  fun p =>
    match toGame (obj p) with
    | None => (Panic "invalid memory address or nil pointer dereference", p)
    | Some g =>
        let r := Run inputs (mkWorld g colour false false (mkRand src 0) []) in
        let p' := mkProc (withData (obj p) (game (snd r)))
                         (log p ++ map InLoop (trace (snd r))) in
        match fst r with
        | TERMINATED => (Done tt, p')
        | RUNNING => (Blocked, p')
        end
    end.

(** [main]. *)
Definition main : L unit :=
  err <- initSDL ;;
  match err with
  | Some e => panic e
  | None =>
      defer closeSDL
        (NewGame ;;
         defer (Close true) RunIn)
  end.

(** The attempts a function makes on the call sites [rs] in turn, up to the
    first that fails, and the error of that one. *)
Fixpoint attempts (rs : list Resource) : list Step :=
  match rs with
  | [] => []
  | r :: rest =>
      match fails r with
      | None => Opened r :: attempts rest
      | Some _ => [Failed r]
      end
  end.
Fixpoint first_failure (rs : list Resource) : option (Resource * string) :=
  match rs with
  | [] => None
  | r :: rest =>
      match fails r with
      | None => first_failure rest
      | Some e => Some (r, e)
      end
  end.

End Env.

(** The text put before the error of each call site. *)
Definition message (r : Resource) : string :=
  match r with
  | LibSDL => "Error initializing SDL2: "
  | LibIMG => "Error initializing SDL_image: "
  | LibTTF => "Error initializing SDL_ttf: "
  | LibMIX => "Error initializing SDL_mixer: "
  | Window => "Error creating window: "
  | Renderer => "Error creating renderer: "
  | BackgroundTex => "Error loading background image: "
  | IconSurface => "Error loading icon image: "
  | Font => "Error loading font: "
  | TextSurface => "Error creating font surface: "
  | TextTex => "Error creating font texture: "
  | SpriteTex => "Error loading sprite image: "
  | Audio => "Error initializing SDL_mixer audio: "
  | GoChunk => "Error loading sound chunk: "
  | SDLChunk => "Error loading sound chunk: "
  | Music => "Error loading music: "
  end%string.
Definition report (f : option (Resource * string)) : option string :=
  match f with
  | Some (r, e) => Some (String.append (message r) e)
  | None => None
  end.

(** The order of the call sites in [initSDL] and in [Init], the handles of
    the struct in the order [Close] looks at them, and the order of
    [closeSDL]. *)
Definition libraries : list Resource := [LibSDL; LibIMG; LibTTF; LibMIX].
Definition assets : list Resource :=
  [Window; Renderer; BackgroundTex; IconSurface; Font; TextSurface; TextTex;
   SpriteTex; Audio; GoChunk; SDLChunk; Music].
Definition handles : list Resource :=
  [Window; Renderer; BackgroundTex; IconSurface; TextTex; SpriteTex;
   GoChunk; SDLChunk; Music].
Definition shutdown : list Resource :=
  [LibTTF; Audio; LibMIX; LibIMG; LibSDL].

(** The field of the struct that holds a resource, if any does. *)
Definition holds (g : GameObj) (r : Resource) : bool :=
  match r with
  | Window => window g
  | Renderer => renderer g
  | BackgroundTex => background g
  | IconSurface => icon g
  | TextTex => text g
  | SpriteTex => sprite g
  | GoChunk => chunkGo g
  | SDLChunk => chunkSDL g
  | Music => music g
  | _ => false
  end.

(** How often the log opens and closes a resource. *)
Definition opens (r : Resource) (l : list Step) : nat :=
  length (filter (fun s => match s with
                           | Opened r' => Resource_beq r r'
                           | _ => false
                           end) l).
Definition closes (r : Resource) (l : list Step) : nat :=
  length (filter (fun s => match s with
                           | Closed r' => Resource_beq r r'
                           | _ => false
                           end) l).
Definition is_loop_step (s : Step) : bool :=
  match s with InLoop _ => true | _ => false end.

(** The process before [main]. *)
Definition boot : Proc := mkProc zeroGame [].

End Life.

(** ** Machine integers: when nothing wraps *)

Arguments Int.add32 : simpl never.
Arguments Int.sub32 : simpl never.
Arguments Int.int32 : simpl never.
Arguments Int.neg : simpl never.
Arguments Int.uint8 : simpl never.
Arguments Int.div32 : simpl never.

Lemma int32_exact (z : Z) : Int.is_int32 z -> Int.int32 z = z.
Proof.
  unfold Int.is_int32, Int.int32, Int.wrap. intros Hz.
  change (2 ^ (32 - 1)) with (2 ^ 31). rewrite Z.mod_small; lia.
Qed.

Lemma int32_range (z : Z) : Int.is_int32 (Int.int32 z).
Proof.
  unfold Int.is_int32, Int.int32, Int.wrap.
  change (2 ^ (32 - 1)) with (2 ^ 31).
  pose proof (Z.mod_pos_bound (z + 2 ^ 31) (2 ^ 32) ltac:(lia)). lia.
Qed.

Lemma add32_exact (a b : Z) : Int.is_int32 (a + b) -> Int.add32 a b = a + b.
Proof. apply int32_exact. Qed.

Lemma sub32_exact (a b : Z) : Int.is_int32 (a - b) -> Int.sub32 a b = a - b.
Proof. apply int32_exact. Qed.

Lemma int32_add_idemp (a b : Z) :
  Int.int32 (Int.int32 a + b) = Int.int32 (a + b).
Proof.
  unfold Int.int32, Int.wrap. f_equal.
  replace ((a + 2 ^ (32 - 1)) mod 2 ^ 32 - 2 ^ (32 - 1) + b + 2 ^ (32 - 1))
    with ((a + 2 ^ (32 - 1)) mod 2 ^ 32 + b) by lia.
  rewrite Z.add_mod_idemp_l by lia. f_equal. lia.
Qed.

Lemma neg_exact (z : Z) : Int.is_int (- z) -> Int.neg z = - z.
Proof.
  unfold Int.is_int, Int.neg, Int.int, Int.wrap. intros Hz.
  change (2 ^ (64 - 1)) with (2 ^ 63). rewrite Z.mod_small; lia.
Qed.

Lemma uint8_range (z : Z) : 0 <= Int.uint8 z <= 255.
Proof.
  unfold Int.uint8. pose proof (Z.mod_pos_bound z 256 ltac:(lia)). lia.
Qed.

(** ** Running the program symbolically *)

Ltac prog_unfold :=
  unfold exec, emitted, moveText, moveSprite, randColor, pauseUnpauseMusic,
    Intn, RendererSetDrawColor, musicPlay, PlayingMusic, PausedMusic,
    mixResumeMusic, mixPauseMusic, when, bind, ret, getGame, modifyGame, call.

Ltac prog_simpl :=
  cbn [fst snd when bind ret getGame modifyGame call
       game drawColor musicPlaying musicPaused rand trace
       setGame setDrawColor setMusic setRand setTrace
       fontSize fontColor textRect textVelocity textXVelocity textYVelocity
       spriteRect spriteVelocity setTextRect setTextXVelocity setTextYVelocity
       setSpriteRect setX setY X Y W H R G B A source taken] in *.

Ltac prog_case :=
  match goal with
  | |- context [if ?c then _ else _] =>
      let E := fresh "E" in destruct c eqn:E; prog_simpl
  end.

Lemma skipn_app_exact {T} (l k : list T) : skipn (length l) (l ++ k) = k.
Proof. induction l; simpl; auto. Qed.

Lemma wall_test (a b bound : Z) :
  (a <=? 0) || (b >=? bound) = true <-> a <= 0 \/ b >= bound.
Proof.
  rewrite orb_true_iff, Z.leb_le, Z.geb_le. lia.
Qed.

Lemma wall_test_false (a b bound : Z) :
  (a <=? 0) || (b >=? bound) = false <-> ~ (a <= 0 \/ b >= bound).
Proof.
  rewrite <- wall_test. destruct ((a <=? 0) || (b >=? bound)); split;
    intros; congruence.
Qed.

(** ** moveText *)

(** C1.  One call of [moveText] moves the text rectangle by its velocity on
    both axes and keeps its size; on each axis on its own, the velocity is
    negated and one play of the wall sound is emitted for that axis exactly
    when the new position is [<= 0] or the new position plus the size is [>=]
    the window bound, and otherwise the velocity of that axis is unchanged
    and no sound is emitted for it.  This holds of every state with the
    operations of Go ([int32] sum, conversion to [int32], [int] negation),
    and, whenever nothing wraps, with the sum and the negation of the
    integers themselves: the new position is [position + velocity] and a
    flipped velocity is [- velocity]. *)
Theorem moveText_boundary_flip (w : World) :
  let g := game w in
  let r := textRect g in
  let g' := game (exec moveText w) in
  let outcome (add : Z -> Z -> Z) (conv neg : Z -> Z) : Prop :=
    let x' := add (X r) (conv (textXVelocity g)) in
    let y' := add (Y r) (conv (textYVelocity g)) in
    let hitX := x' <= 0 \/ add x' (W r) >= windowWidth in
    let hitY := y' <= 0 \/ add y' (H r) >= windowHeight in
    textRect g' = mkRect x' y' (W r) (H r) /\
    exists sx sy : list Call,
      trace (exec moveText w) = trace w ++ sx ++ sy /\
      (sx = [ChunkPlay ChunkSDL] /\ textXVelocity g' = neg (textXVelocity g)
         <-> hitX) /\
      (sx = [] /\ textXVelocity g' = textXVelocity g <-> ~ hitX) /\
      (sy = [ChunkPlay ChunkSDL] /\ textYVelocity g' = neg (textYVelocity g)
         <-> hitY) /\
      (sy = [] /\ textYVelocity g' = textYVelocity g <-> ~ hitY) in
  outcome Int.add32 Int.int32 Int.neg /\
  (no_wrap g -> outcome Z.add (fun v => v) Z.opp).
Proof.
  intros g r g' outcome.
  assert (Go : outcome Int.add32 Int.int32 Int.neg).
  { subst outcome g' r g. cbv beta zeta.
    destruct w as [[fs fc [x y tw th] tv vx vy sr sv] dc mp mpa rd tr].
    prog_unfold. prog_simpl.
    set (x' := Int.add32 x (Int.int32 vx)).
    set (y' := Int.add32 y (Int.int32 vy)).
    pose proof (wall_test x' (Int.add32 x' tw) windowWidth) as Tx.
    pose proof (wall_test_false x' (Int.add32 x' tw) windowWidth) as Fx.
    pose proof (wall_test y' (Int.add32 y' th) windowHeight) as Ty.
    pose proof (wall_test_false y' (Int.add32 y' th) windowHeight) as Fy.
    destruct ((x' <=? 0) || (Int.add32 x' tw >=? windowWidth)) eqn:Ex;
      prog_simpl;
      destruct ((y' <=? 0) || (Int.add32 y' th >=? windowHeight)) eqn:Ey;
      prog_simpl.
    all: split; [reflexivity|].
    1: exists [ChunkPlay ChunkSDL], [ChunkPlay ChunkSDL].
    2: exists [ChunkPlay ChunkSDL], [].
    3: exists [], [ChunkPlay ChunkSDL].
    4: exists [], [].
    all: rewrite <- ?app_assoc, ?app_nil_r; simpl.
    all: repeat split; try reflexivity; try tauto; try discriminate.
    all: try (intros [? ?]; discriminate).
    all: try (intros; exfalso; tauto).
    all: try (intros [? ?]; tauto). }
  split; [exact Go|].
  intros (Hvx & Hvy & Hx & Hy & Hxw & Hyh). fold r in Hx, Hy, Hxw, Hyh.
  subst outcome. cbv beta zeta in Go |- *.
  rewrite (int32_exact _ Hvx), (int32_exact _ Hvy) in Go.
  rewrite (add32_exact _ _ Hx), (add32_exact _ _ Hy) in Go.
  rewrite (add32_exact _ _ Hxw), (add32_exact _ _ Hyh) in Go.
  rewrite (neg_exact (textXVelocity g)), (neg_exact (textYVelocity g)) in Go.
  - exact Go.
  - unfold Int.is_int32, Int.is_int in *. lia.
  - unfold Int.is_int32, Int.is_int in *. lia.
Qed.

Lemma moveText_boundary_flip_witness :
  let w := exec (loop (repeat noInput 124)) (start 300 100) in
  let w' := exec moveText w in
  no_wrap (game w) /\
  textRect (game w) = mkRect 498 498 300 100 /\
  textXVelocity (game w) = 2 /\ textYVelocity (game w) = 2 /\
  textRect (game w') = mkRect (498 + 2) (498 + 2) 300 100 /\
  textXVelocity (game w') = - 2 /\ textYVelocity (game w') = - 2.
Proof.
  intros w w'.
  assert (Hr : textRect (game w) = mkRect 498 498 300 100)
    by (vm_compute; reflexivity).
  assert (Hvx : textXVelocity (game w) = 2) by (vm_compute; reflexivity).
  assert (Hvy : textYVelocity (game w) = 2) by (vm_compute; reflexivity).
  assert (Hn : no_wrap (game w)).
  { unfold no_wrap. rewrite Hr, Hvx, Hvy. cbn [X Y W H].
    unfold Int.is_int32. repeat split; lia. }
  destruct (proj2 (moveText_boundary_flip w) Hn)
    as (Hr' & sx & sy & _ & Hx & _ & Hy & _).
  fold w' in Hr', Hx, Hy. rewrite Hr, Hvx, Hvy in Hr'.
  rewrite Hr, Hvx in Hx. rewrite Hr, Hvy in Hy.
  cbn [X Y W H] in Hr', Hx, Hy. unfold windowWidth in Hx.
  unfold windowHeight in Hy.
  split; [exact Hn|]. split; [exact Hr|]. split; [exact Hvx|].
  split; [exact Hvy|]. split; [exact Hr'|]. split.
  - apply Hx. right. lia.
  - apply Hy. right. lia.
Defined.

(** ** randColor *)

(** C8.  Every call of [randColor] writes to the renderer's draw colour a
    colour whose red, green and blue channels are integers of [0, 255]; each
    channel comes from a draw of its own of the random source (three draws in
    a row, reduced to [0, 256)), the colour is handed to [SetDrawColor], and
    no combination of channel values is excluded. *)
Theorem randColor_channels (w : World) :
  let w' := exec randColor w in
  let c' := drawColor w' in
  let draw k := source (rand w) (taken (rand w) + k)%nat in
  (0 <= R c' <= 255 /\ 0 <= G c' <= 255 /\ 0 <= B c' <= 255) /\
  (R c' = draw 0%nat mod 256 /\ G c' = draw 1%nat mod 256 /\
   B c' = draw 2%nat mod 256) /\
  taken (rand w') = (taken (rand w) + 3)%nat /\
  trace w' = trace w ++ [SetDrawColor (R c') (G c') (B c') (A c')] /\
  game w' = game w /\
  (forall r g b : Z, exists src : nat -> Z,
      let c := drawColor (exec randColor (setRand w (mkRand src 0))) in
      R c = Int.uint8 r /\ G c = Int.uint8 g /\ B c = Int.uint8 b).
Proof.
  destruct w as [g dc mp mpa [src k] tr].
  prog_unfold. prog_simpl. unfold Int.uint8.
  rewrite !Z.mod_mod by lia.
  replace (k + 0)%nat with k by lia.
  replace (k + 1)%nat with (S k) by lia.
  replace (k + 2)%nat with (S (S k)) by lia.
  replace (k + 3)%nat with (S (S (S k))) by lia.
  repeat split; try reflexivity;
    try (apply Z.mod_pos_bound; lia);
    try (pose proof (Z.mod_pos_bound (src k) 256 ltac:(lia));
         pose proof (Z.mod_pos_bound (src (S k)) 256 ltac:(lia));
         pose proof (Z.mod_pos_bound (src (S (S k))) 256 ltac:(lia)); lia).
  intros r gr b.
  exists (fun i => match i with O => r | S O => gr | _ => b end).
  cbn. rewrite !Z.mod_mod by lia. auto.
Qed.


(** ** moveSprite *)

Ltac int_exact :=
  unfold Int.add32, Int.sub32 in *;
  repeat match goal with
    | H : context [Int.int32 ?z] |- _ =>
        rewrite (int32_exact z) in H by (unfold Int.is_int32; lia)
    | |- context [Int.int32 ?z] =>
        rewrite (int32_exact z) by (unfold Int.is_int32; lia)
    end.

Ltac bool_facts :=
  repeat match goal with
    | H : _ = true |- _ =>
        progress rewrite ?Z.geb_leb, ?Z.gtb_ltb, ?andb_true_iff, ?orb_true_iff,
          ?Z.leb_le, ?Z.ltb_lt in H
    | H : _ = false |- _ =>
        progress rewrite ?Z.geb_leb, ?Z.gtb_ltb, ?andb_false_iff,
          ?orb_false_iff, ?Z.leb_gt, ?Z.ltb_ge in H
    end.

Lemma try_move_cases (bound size pos delta : Z) :
  (0 <= pos + delta /\ pos + delta + size <= bound /\
   try_move bound size pos delta = pos + delta) \/
  (~ (0 <= pos + delta /\ pos + delta + size <= bound) /\
   try_move bound size pos delta = pos).
Proof.
  unfold try_move.
  destruct ((0 <=? pos + delta) && (pos + delta + size <=? bound)) eqn:E;
    bool_facts; [left | right]; lia.
Qed.

Ltac try_move_facts :=
  repeat match goal with
    | |- context [try_move ?b ?s ?p ?d] =>
        let t := fresh "t" in
        pose proof (try_move_cases b s p d);
        set (t := try_move b s p d) in *; clearbody t
    | H : context [try_move ?b ?s ?p ?d] |- _ =>
        let t := fresh "t" in
        pose proof (try_move_cases b s p d);
        set (t := try_move b s p d) in *; clearbody t
    end.

(** A blocked move leaves the position where it was; an applied move is the
    full step, never a shorter one up to the edge. *)
Lemma try_move_blocked (bound size pos delta : Z) :
  ~ (0 <= pos + delta /\ pos + delta + size <= bound) ->
  try_move bound size pos delta = pos.
Proof. intros Hb. destruct (try_move_cases bound size pos delta); tauto. Qed.

Lemma try_move_applied (bound size pos delta : Z) :
  0 <= pos + delta -> pos + delta + size <= bound ->
  try_move bound size pos delta = pos + delta.
Proof. intros H0 H1. destruct (try_move_cases bound size pos delta); tauto. Qed.

Lemma axis_move_inside (bound size step pos : Z) (back forth : bool) :
  0 <= pos -> pos + size <= bound ->
  0 <= axis_move bound size step pos back forth /\
  axis_move bound size step pos back forth + size <= bound.
Proof.
  intros H0 H1. unfold axis_move. destruct back, forth; try_move_facts; lia.
Qed.

(** With one direction of an axis held and its move blocked, the position on
    that axis is the prior one; and whatever is held, the new position is the
    prior one or one full step away from it. *)
Lemma axis_move_blocked (bound size step pos : Z) :
  (~ (0 <= pos - step /\ pos - step + size <= bound) ->
   axis_move bound size step pos true false = pos) /\
  (~ (0 <= pos + step /\ pos + step + size <= bound) ->
   axis_move bound size step pos false true = pos).
Proof.
  unfold axis_move. split; intros Hb; apply try_move_blocked;
    (replace (pos + - step) with (pos - step) by lia); exact Hb.
Qed.

Lemma axis_move_full_step (bound size step pos : Z) (back forth : bool) :
  axis_move bound size step pos back forth = pos \/
  axis_move bound size step pos back forth = pos - step \/
  axis_move bound size step pos back forth = pos + step.
Proof.
  unfold axis_move. destruct back, forth; try_move_facts; lia.
Qed.

(** ** A small program logic for the monad *)

Lemma triple_bind {T U} (P : World -> Prop) (m : M T) (k : T -> M U)
      (Q : T -> World -> Prop) (Q' : U -> World -> Prop) :
  triple P m Q -> (forall x, triple (Q x) (k x) Q') -> triple P (bind m k) Q'.
Proof. intros Hm Hk w Hw. unfold bind. apply Hk, Hm, Hw. Qed.

Lemma triple_pre {T} (P P' : World -> Prop) (m : M T)
      (Q : T -> World -> Prop) :
  (forall w, P w -> P' w) -> triple P' m Q -> triple P m Q.
Proof. intros HP Hm w Hw. apply Hm, HP, Hw. Qed.

Lemma triple_getGame (P : World -> Prop) :
  triple P getGame (fun g w => P w /\ g = game w).
Proof. intros w Hw. split; [exact Hw | reflexivity]. Qed.

Lemma setSpriteRect_same (g : Game) :
  setSpriteRect g (mkRect (X (spriteRect g)) (Y (spriteRect g))
                          (W (spriteRect g)) (H (spriteRect g))) = g.
Proof. destruct g as [fs fc tr tv vx vy [x y sw sh] sv]. reflexivity. Qed.

Section MoveSprite.
Variable kb : list Z.
Variable g0 : Game.
Variable t0 : list Call.

Let x0 := X (spriteRect g0).
Let y0 := Y (spriteRect g0).
Let sw := W (spriteRect g0).
Let sh := H (spriteRect g0).
Let up := held kb sdl.SCANCODE_UP || held kb sdl.SCANCODE_W.
Let down := held kb sdl.SCANCODE_DOWN || held kb sdl.SCANCODE_S.
Let left := held kb sdl.SCANCODE_LEFT || held kb sdl.SCANCODE_A.
Let right := held kb sdl.SCANCODE_RIGHT || held kb sdl.SCANCODE_D.

(** Between two blocks of [moveSprite]: the sprite sits at some [(x, y)],
    nothing else of the game has changed, nothing was printed, and when the
    game was ready [x] and [y] are the values [ex] and [ey]. *)
Let mid (ex ey : Z) (w : World) : Prop :=
  exists x y,
    game w = setSpriteRect g0 (mkRect x y sw sh) /\ trace w = t0 /\
    (sprite_ready g0 -> x = ex /\ y = ey).

Ltac block :=
  let w := fresh "w" in
  let x := fresh "x" in let y := fresh "y" in
  let Hg := fresh "Hg" in let Ht := fresh "Ht" in let Hxy := fresh "Hxy" in
  intros w [(x & y & Hg & Ht & Hxy) ->];
  rewrite Hg; cbn [spriteRect spriteVelocity setSpriteRect X Y W H];
  unfold when;
  match goal with
  | |- context [if ?k then _ else _] => destruct k
  end;
  [ match goal with
    | |- context [if ?c then _ else _] => destruct c eqn:?
    end |];
  unfold modifyGame, ret; cbn [fst snd];
  [ eexists _, _; rewrite ?Hg; cbn; split; [reflexivity|]
  | exists x, y; split; [exact Hg|]
  | exists x, y; split; [exact Hg|] ];
  (split; [exact Ht|]);
  intros Hr; destruct (Hxy Hr) as [-> ->];
  destruct Hr as (? & ? & ? & ? & ? & ? & ?);
  unfold axis_move, windowWidth, windowHeight in *;
  repeat match goal with H : spriteVelocity g0 = _ |- _ => rewrite H in * end;
  unfold x0, y0, sw, sh in *;
  repeat match goal with
    | |- context [if ?k then _ else _] => destruct k
    end;
  try_move_facts; int_exact; bool_facts; cbn [X Y W H]; lia.

Lemma moveSprite_triple :
  triple (fun w => game w = g0 /\ trace w = t0) (moveSprite kb)
    (fun _ w => exists x y,
         game w = setSpriteRect g0 (mkRect x y sw sh) /\
         trace w = t0 ++ [Printf (mkRect x y sw sh)] /\
         (sprite_ready g0 ->
          x = axis_move windowWidth sw 10 x0 left right /\
          y = axis_move windowHeight sh 10 y0 up down)).
Proof.
  apply triple_pre with (P' := mid x0 y0).
  { intros w [Hg Ht]. exists x0, y0. unfold x0, y0, sw, sh.
    rewrite setSpriteRect_same. auto. }
  unfold moveSprite. fold up down left right.
  eapply triple_bind; [apply triple_getGame|]. intros g.
  apply triple_bind with (Q := fun _ => mid x0
    (if up then try_move windowHeight sh y0 (- 10) else y0)); [block|].
  intros _.
  eapply triple_bind; [apply triple_getGame|]. intros g1.
  apply triple_bind with (Q := fun _ => mid x0
    (axis_move windowHeight sh 10 y0 up down)); [block|].
  intros _.
  eapply triple_bind; [apply triple_getGame|]. intros g2.
  apply triple_bind with (Q := fun _ => mid
    (if left then try_move windowWidth sw x0 (- 10) else x0)
    (axis_move windowHeight sh 10 y0 up down)); [block|].
  intros _.
  eapply triple_bind; [apply triple_getGame|]. intros g3.
  apply triple_bind with (Q := fun _ => mid
    (axis_move windowWidth sw 10 x0 left right)
    (axis_move windowHeight sh 10 y0 up down)); [block|].
  intros _.
  eapply triple_bind; [apply triple_getGame|]. intros g4.
  intros w [(x & y & Hg & Ht & Hxy) ->].
  exists x, y. unfold call. cbn [fst snd setTrace game trace].
  rewrite Hg, Ht. cbn [spriteRect setSpriteRect]. auto.
Qed.
End MoveSprite.

(** Whatever the state, [moveSprite] changes nothing of the game but the
    position of the sprite, and prints the rectangle it leaves. *)
Lemma moveSprite_only_moves (kb : list Z) (w : World) :
  let r := spriteRect (game w) in
  let w' := exec (moveSprite kb) w in
  exists x y : Z,
    game w' = setSpriteRect (game w) (mkRect x y (W r) (H r)) /\
    trace w' = trace w ++ [Printf (mkRect x y (W r) (H r))].
Proof.
  destruct (moveSprite_triple kb (game w) (trace w) w (conj eq_refl eq_refl))
    as (x & y & Hg & Ht & _).
  exists x, y. split; [exact Hg | exact Ht].
Qed.

(** The guards of [moveSprite] are the rule [try_move], axis by axis. *)
Lemma moveSprite_axes (kb : list Z) (w : World) :
  let r := spriteRect (game w) in
  sprite_ready (game w) ->
  spriteRect (game (exec (moveSprite kb) w)) =
    mkRect
      (axis_move windowWidth (W r) 10 (X r)
         (held kb sdl.SCANCODE_LEFT || held kb sdl.SCANCODE_A)
         (held kb sdl.SCANCODE_RIGHT || held kb sdl.SCANCODE_D))
      (axis_move windowHeight (H r) 10 (Y r)
         (held kb sdl.SCANCODE_UP || held kb sdl.SCANCODE_W)
         (held kb sdl.SCANCODE_DOWN || held kb sdl.SCANCODE_S))
      (W r) (H r).
Proof.
  intros r Hr.
  destruct (moveSprite_triple kb (game w) (trace w) w (conj eq_refl eq_refl))
    as (x & y & Hg & _ & Hxy).
  destruct (Hxy Hr) as [Hx Hy]. unfold exec. rewrite Hg.
  cbn [spriteRect setSpriteRect]. rewrite Hx, Hy. reflexivity.
Qed.

Lemma moveSprite_velocity (kb : list Z) (w : World) :
  spriteVelocity (game (exec (moveSprite kb) w)) = spriteVelocity (game w).
Proof.
  destruct (moveSprite_only_moves kb w) as (x & y & Hg & _).
  rewrite Hg. reflexivity.
Qed.

(** C2, as stated, fails when both keys of an axis are held: the sprite of
    [Init] is at the top edge, a move up by the velocity step would leave the
    window, and yet with up and down held [moveSprite] does not leave the
    position on that axis at its prior value: the move down is applied. *)
Lemma moveSprite_prior_value_counterexample :
  let kb := keysDown [sdl.SCANCODE_UP; sdl.SCANCODE_DOWN] in
  let w := start 300 100 in
  let r := spriteRect (game w) in
  let r' := spriteRect (game (exec (moveSprite kb) w)) in
  in_arena r /\ spriteVelocity (game w) = 10 /\
  held kb sdl.SCANCODE_UP = true /\ held kb sdl.SCANCODE_DOWN = true /\
  Y r = 0 /\ ~ 0 <= Y r - 10 /\
  Y r' = 10 /\ Y r' <> Y r.
Proof.
  intros kb w r r'.
  assert (Hr : r = mkRect 0 0 128 128) by (vm_compute; reflexivity).
  assert (Hr' : r' = mkRect 0 10 128 128) by (vm_compute; reflexivity).
  rewrite Hr, Hr'. unfold in_arena, windowWidth, windowHeight. cbn [X Y W H].
  repeat split; try reflexivity; lia.
Qed.

(** C2, amended.  For a sprite inside the window (on both axes the position
    lies in [0, bound - size]), with velocity step 10, and for every keyboard
    array: after [moveSprite] the sprite is still inside the window and its
    size and its velocity step are what they were.  On each axis the
    directions are tried one after the other, the one towards 0 first, and a
    direction whose move by the step would leave the interval is skipped,
    the position staying as that direction found it (it is not put at the
    edge).  So with no key of an axis held the position is the prior one;
    with one direction held it is the prior one moved by the step if that
    stays in the interval, and the prior one otherwise; with both held it is
    the prior one, unless the move towards 0 is blocked and the move away
    from 0 is not, which is then applied. *)
Theorem moveSprite_clamped (kb : list Z) (w : World) :
  let r := spriteRect (game w) in
  let g' := game (exec (moveSprite kb) w) in
  let r' := spriteRect g' in
  let up := held kb sdl.SCANCODE_UP || held kb sdl.SCANCODE_W in
  let down := held kb sdl.SCANCODE_DOWN || held kb sdl.SCANCODE_S in
  let left := held kb sdl.SCANCODE_LEFT || held kb sdl.SCANCODE_A in
  let right := held kb sdl.SCANCODE_RIGHT || held kb sdl.SCANCODE_D in
  spriteVelocity (game w) = 10 ->
  0 <= W r -> 0 <= H r ->
  in_arena r ->
  in_arena r' /\ spriteVelocity g' = 10 /\ W r' = W r /\ H r' = H r /\
  X r' =
    match left, right with
    | false, false => X r
    | true, false => if 0 <=? X r - 10 then X r - 10 else X r
    | false, true => if X r + 10 + W r <=? windowWidth then X r + 10 else X r
    | true, true =>
        if (X r - 10 <? 0) && (X r + 10 + W r <=? windowWidth)
        then X r + 10 else X r
    end /\
  Y r' =
    match up, down with
    | false, false => Y r
    | true, false => if 0 <=? Y r - 10 then Y r - 10 else Y r
    | false, true => if Y r + 10 + H r <=? windowHeight then Y r + 10 else Y r
    | true, true =>
        if (Y r - 10 <? 0) && (Y r + 10 + H r <=? windowHeight)
        then Y r + 10 else Y r
    end.
Proof.
  intros r g' r' up down left right Hv Hw Hh Ha.
  assert (Hr : sprite_ready (game w)) by (unfold sprite_ready; auto).
  pose proof (moveSprite_axes kb w Hr) as Hax.
  pose proof (moveSprite_velocity kb w) as Hvel.
  fold g' in Hvel. fold g' r' in Hax. fold r up down left right in Hax.
  destruct Ha as (Hx0 & Hx1 & Hy0 & Hy1).
  pose proof (axis_move_inside windowWidth (W r) 10 (X r) left right Hx0 Hx1).
  pose proof (axis_move_inside windowHeight (H r) 10 (Y r) up down Hy0 Hy1).
  rewrite Hax, Hvel. unfold in_arena. cbn [X Y W H].
  split; [tauto|]. split; [exact Hv|]. split; [reflexivity|].
  split; [reflexivity|].
  unfold windowWidth, windowHeight in *.
  split; unfold axis_move, try_move.
  - destruct left, right;
      repeat match goal with
             | |- context [if ?c then _ else _] =>
                 let E := fresh "E" in destruct c eqn:E
             end; bool_facts; lia.
  - destruct up, down;
      repeat match goal with
             | |- context [if ?c then _ else _] =>
                 let E := fresh "E" in destruct c eqn:E
             end; bool_facts; lia.
Qed.

Lemma moveSprite_clamped_witness :
  let kb := keysDown [sdl.SCANCODE_RIGHT; sdl.SCANCODE_UP] in
  let w := start 300 100 in
  (spriteVelocity (game w) = 10 /\ 0 <= W (spriteRect (game w)) /\
   0 <= H (spriteRect (game w)) /\ in_arena (spriteRect (game w))) /\
  in_arena (spriteRect (game (exec (moveSprite kb) w))) /\
  spriteVelocity (game (exec (moveSprite kb) w)) = 10 /\
  spriteRect (game (exec (moveSprite kb) w)) = mkRect 10 0 128 128.
Proof.
  intros kb w.
  assert (Hv : spriteVelocity (game w) = 10) by reflexivity.
  assert (Hw : 0 <= W (spriteRect (game w))) by (vm_compute; discriminate).
  assert (Hh : 0 <= H (spriteRect (game w))) by (vm_compute; discriminate).
  assert (Ha : in_arena (spriteRect (game w))).
  { unfold in_arena. repeat split; vm_compute; discriminate. }
  destruct (moveSprite_clamped kb w Hv Hw Hh Ha) as (Ha' & Hv' & _).
  split; [auto|]. split; [exact Ha'|]. split; [exact Hv'|].
  vm_compute. reflexivity.
Defined.

(** ** The event drain *)

Lemma exec_bind {T U} (m : M T) (k : T -> M U) (w : World) :
  exec (bind m k) w = exec (k (fst (m w))) (exec m w).
Proof. reflexivity. Qed.

Lemma fst_bind {T U} (m : M T) (k : T -> M U) (w : World) :
  fst (bind m k w) = fst (k (fst (m w)) (exec m w)).
Proof. reflexivity. Qed.

(** What the body of the type switch does for a keyboard event that is not
    escape going down. *)
Lemma key_event_effect (sym type : Z) (w : World) :
  let m := (when ((sym =? sdl.K_SPACE) && (type =? sdl.KEYDOWN))
              (call (ChunkPlay ChunkGo) ;; randColor) ;;
            when ((sym =? sdl.K_m) && (type =? sdl.KEYDOWN))
              pauseUnpauseMusic)%prog in
  game (exec m w) = game w /\
  exists tr, trace (exec m w) = trace w ++ tr /\
             forallb is_drain_call tr = true.
Proof.
  destruct w as [g dc mp mpa rd tr]. cbv zeta.
  destruct ((sym =? sdl.K_SPACE) && (type =? sdl.KEYDOWN));
    destruct ((sym =? sdl.K_m) && (type =? sdl.KEYDOWN));
    destruct mp, mpa; prog_unfold; prog_simpl;
    (split; [reflexivity|]); rewrite <- ?app_assoc;
    eexists; (split; [try reflexivity; symmetry; apply app_nil_r | reflexivity]).
Qed.

Lemma pollEvents_effect (queue : list Event) : forall w : World,
  fst (pollEvents queue w) = existsb is_quit queue /\
  game (exec (pollEvents queue) w) = game w /\
  exists tr, trace (exec (pollEvents queue) w) = trace w ++ tr /\
             forallb is_drain_call tr = true.
Proof.
  induction queue as [|e queue IH]; intros w.
  - split; [reflexivity|]. split; [reflexivity|].
    exists []. rewrite app_nil_r. split; reflexivity.
  - destruct e as [|sym type|].
    + split; [reflexivity|]. split; [reflexivity|].
      exists []. rewrite app_nil_r. split; reflexivity.
    + cbn [pollEvents existsb is_quit].
      destruct ((sym =? sdl.K_ESCAPE) && (type =? sdl.KEYDOWN)).
      * split; [reflexivity|]. split; [reflexivity|].
        exists []. rewrite app_nil_r. split; reflexivity.
      * cbn [orb].
        destruct (key_event_effect sym type w) as (Hg & tr1 & Ht1 & Hd1).
        cbv zeta in *.
        match type of Hg with
        | game (exec ?m w) = _ => set (w1 := exec m w) in *
        end.
        destruct (IH w1) as (Hq & Hg2 & tr2 & Ht2 & Hd2).
        split; [exact Hq|]. split.
        { change (game (exec (pollEvents queue) w1) = game w). congruence. }
        exists (tr1 ++ tr2). split.
        { change (trace (exec (pollEvents queue) w1) = trace w ++ tr1 ++ tr2).
          rewrite Ht2, Ht1, app_assoc. reflexivity. }
        rewrite forallb_app, Hd1, Hd2. reflexivity.
    + cbn [pollEvents existsb is_quit orb]. apply IH.
Qed.

(** ** One pass of the loop *)

Lemma moveText_effect (w : World) :
  let g := game w in
  let g' := game (exec moveText w) in
  let r' := textRect g' in
  let sound (b : bool) := if b then [ChunkPlay ChunkSDL] else [] in
  r' = mkRect (Int.add32 (X (textRect g)) (Int.int32 (textXVelocity g)))
              (Int.add32 (Y (textRect g)) (Int.int32 (textYVelocity g)))
              (W (textRect g)) (H (textRect g)) /\
  textXVelocity g' =
    (if wallX r' then Int.neg (textXVelocity g) else textXVelocity g) /\
  textYVelocity g' =
    (if wallY r' then Int.neg (textYVelocity g) else textYVelocity g) /\
  trace (exec moveText w) = trace w ++ sound (wallX r') ++ sound (wallY r') /\
  spriteRect g' = spriteRect g /\ spriteVelocity g' = spriteVelocity g.
Proof.
  destruct w as [[fs fc [x y tw th] tv vx vy sr sv] dc mp mpa rd tr].
  prog_unfold. unfold wallX, wallY. prog_simpl.
  prog_case; prog_case; rewrite ?E, ?E0, <- ?app_assoc, ?app_nil_r;
    repeat split; reflexivity.
Qed.

(** When neither sum leaves [int32], as for every rectangle near the window,
    the move of [moveText] is the plain sum of position and velocity. *)
Lemma moveText_plain_sum (w : World) :
  let g := game w in
  Int.is_int32 (textXVelocity g) -> Int.is_int32 (textYVelocity g) ->
  Int.is_int32 (X (textRect g) + textXVelocity g) ->
  Int.is_int32 (Y (textRect g) + textYVelocity g) ->
  X (textRect (game (exec moveText w))) = X (textRect g) + textXVelocity g /\
  Y (textRect (game (exec moveText w))) = Y (textRect g) + textYVelocity g.
Proof.
  intros g Hvx Hvy Hx Hy.
  destruct (moveText_effect w) as (Hr & _). cbv zeta in Hr.
  fold g in Hr. rewrite Hr. cbn [X Y].
  rewrite (int32_exact _ Hvx), (int32_exact _ Hvy).
  split; apply add32_exact; assumption.
Qed.

Lemma moveText_game_ext (w1 w2 : World) :
  game w1 = game w2 ->
  game (exec moveText w1) = game (exec moveText w2).
Proof.
  destruct w1 as [g1 dc1 mp1 mpa1 rd1 tr1], w2 as [g2 dc2 mp2 mpa2 rd2 tr2].
  cbn [game]. intros ->. prog_unfold. prog_simpl.
  repeat prog_case; first [reflexivity | congruence].
Qed.

Lemma frame_quit (inp : Input) (w : World) :
  existsb is_quit (events inp) = true ->
  fst (frame inp w) = true /\
  exec (frame inp) w = exec (pollEvents (events inp)) w.
Proof.
  intros Hq. destruct (pollEvents_effect (events inp) w) as (Hf & _).
  unfold frame, exec, bind. rewrite Hf, Hq. split; reflexivity.
Qed.

Lemma frame_pass (inp : Input) (w : World) :
  existsb is_quit (events inp) = false ->
  let w1 := exec (pollEvents (events inp)) w in
  let w2 := exec (when (movementKeyHeld (keyboard inp))
                       (moveSprite (keyboard inp))) w1 in
  let w3 := exec moveText
              (exec (call (RendererCopy Background None))
                    (exec (call RendererClear) w2)) in
  fst (frame inp w) = false /\
  game (exec (frame inp) w) = game w3 /\
  trace (exec (frame inp) w) =
    trace w3 ++ [RendererCopy Text (Some (textRect (game w3)));
                 RendererCopy Sprite (Some (spriteRect (game w3)));
                 RendererPresent; Delay 20].
Proof.
  intros Hq. destruct (pollEvents_effect (events inp) w) as (Hf & _).
  unfold frame, exec, bind. rewrite Hf, Hq. cbv zeta.
  unfold getGame, call, ret. prog_simpl. rewrite <- !app_assoc.
  repeat split; reflexivity.
Qed.

Section Invariant.
Variable P : Game -> Prop.
Hypothesis P_moveSprite :
  forall kb w, P (game w) -> P (game (exec (moveSprite kb) w)).
Hypothesis P_moveText :
  forall w, P (game w) -> P (game (exec moveText w)).

Lemma frame_preserves (inp : Input) (w : World) :
  P (game w) -> P (game (exec (frame inp) w)).
Proof.
  intros HP. destruct (existsb is_quit (events inp)) eqn:Hq.
  - destruct (frame_quit inp w Hq) as (_ & ->).
    destruct (pollEvents_effect (events inp) w) as (_ & -> & _). exact HP.
  - destruct (frame_pass inp w Hq) as (_ & -> & _).
    apply P_moveText. unfold exec, call. prog_simpl.
    destruct (pollEvents_effect (events inp) w) as (_ & Hg & _).
    unfold when. destruct (movementKeyHeld (keyboard inp)).
    + apply P_moveSprite. unfold exec in Hg. rewrite Hg. exact HP.
    + unfold ret. prog_simpl. unfold exec in Hg. rewrite Hg. exact HP.
Qed.

Lemma loop_preserves (inputs : list Input) : forall w : World,
  P (game w) -> P (game (exec (loop inputs) w)).
Proof.
  induction inputs as [|inp rest IH]; intros w HP; [exact HP|].
  cbn [loop]. rewrite exec_bind.
  destruct (fst (frame inp w)).
  - apply frame_preserves, HP.
  - apply IH, frame_preserves, HP.
Qed.

Lemma Run_preserves (inputs : list Input) (w : World) :
  P (game w) -> P (game (exec (Run inputs) w)).
Proof.
  intros HP. unfold Run. rewrite !exec_bind. apply loop_preserves.
  exact HP.
Qed.
End Invariant.
(** ** Quit, and the order of a pass *)

Lemma drain_call_not_render (tr : list Call) :
  forallb is_drain_call tr = true ->
  forallb (fun c => negb (is_render c)) tr = true.
Proof.
  rewrite !forallb_forall. intros Hd c Hc. specialize (Hd c Hc).
  destruct c as [| | [|] | | | | | | |]; try discriminate; reflexivity.
Qed.

(** C5.  If the events of a pass contain a quit transition (the window was
    closed, or escape went down), then [Run] returns during that pass: the
    loop ends in [TERMINATED] whatever inputs would follow, the pass makes no
    call that clears, draws or presents, and neither the sprite nor the text
    moves, whatever keys are held. *)
Theorem quit_precedence (inp : Input) (rest : list Input) (w : World) :
  existsb is_quit (events inp) = true ->
  let w' := exec (frame inp) w in
  fst (frame inp w) = true /\
  fst (loop (inp :: rest) w) = TERMINATED /\
  exec (loop (inp :: rest)) w = w' /\
  game w' = game w /\
  exists tr, trace w' = trace w ++ tr /\
             forallb (fun c => negb (is_render c)) tr = true.
Proof.
  intros Hq w'. destruct (frame_quit inp w Hq) as (Hf & He).
  destruct (pollEvents_effect (events inp) w) as (_ & Hg & tr & Ht & Hd).
  split; [exact Hf|]. split.
  { cbn [loop]. rewrite fst_bind, Hf. reflexivity. }
  split.
  { cbn [loop]. rewrite exec_bind, Hf. reflexivity. }
  subst w'. rewrite He. split; [exact Hg|].
  exists tr. split; [exact Ht|]. apply drain_call_not_render, Hd.
Qed.

Lemma quit_precedence_witness :
  let inp := mkInput [KeyboardEvent sdl.K_SPACE sdl.KEYDOWN;
                      KeyboardEvent sdl.K_ESCAPE sdl.KEYDOWN]
                     (keysDown [sdl.SCANCODE_RIGHT]) in
  existsb is_quit (events inp) = true /\
  movementKeyHeld (keyboard inp) = true /\
  fst (loop [inp; noInput] (start 300 100)) = TERMINATED /\
  game (exec (frame inp) (start 300 100)) = game (start 300 100).
Proof.
  intros inp.
  assert (Hq : existsb is_quit (events inp) = true) by reflexivity.
  destruct (quit_precedence inp [noInput] (start 300 100) Hq)
    as (_ & Hl & _ & Hg & _).
  split; [exact Hq|]. split; [vm_compute; reflexivity|].
  split; [exact Hl | exact Hg].
Defined.

Lemma before_nil (a b : Call) : ~ before a b [].
Proof. intros (l1 & l2 & l3 & E). destruct l1; discriminate E. Qed.

Lemma before_cons (a b c : Call) (tr : list Call) :
  before a b (c :: tr) -> (c = a /\ In b tr) \/ before a b tr.
Proof.
  intros (l1 & l2 & l3 & E). destruct l1 as [|c1 l1]; cbn in E.
  - injection E as -> ->. left. split; [reflexivity|].
    apply in_or_app. right. left. reflexivity.
  - injection E as _ ->. right. exists l1, l2, l3. reflexivity.
Qed.

(** The calls of the pass in which the text of [start 300 100] first reaches
    the right and the bottom wall. *)
Lemma bounce_pass_calls :
  let w := exec (loop (repeat noInput 124)) (start 300 100) in
  fst (frame noInput w) = false /\
  emitted w (exec (frame noInput) w) =
    [RendererClear; RendererCopy Background None;
     ChunkPlay ChunkSDL; ChunkPlay ChunkSDL;
     RendererCopy Text (Some (mkRect 500 500 300 100));
     RendererCopy Sprite (Some (mkRect 0 0 128 128));
     RendererPresent; Delay 20].
Proof. vm_compute. split; reflexivity. Qed.

(** C6, as stated, fails: in the pass in which the text of [start 300 100]
    reaches the walls, the bounce sounds of [moveText] come after the clear
    of the render surface and after the background, not before the clear. *)
Lemma frame_order_counterexample :
  let w := exec (loop (repeat noInput 124)) (start 300 100) in
  let tr := emitted w (exec (frame noInput) w) in
  fst (frame noInput w) = false /\
  before RendererClear (ChunkPlay ChunkSDL) tr /\
  before (RendererCopy Background None) (ChunkPlay ChunkSDL) tr /\
  ~ before (ChunkPlay ChunkSDL) RendererClear tr.
Proof.
  intros w tr. destruct bounce_pass_calls as (Hf & Htr).
  fold w in Hf, Htr. fold tr in Htr. rewrite Htr.
  split; [exact Hf|]. split; [|split].
  - exists [], [RendererCopy Background None], [ChunkPlay ChunkSDL;
      RendererCopy Text (Some (mkRect 500 500 300 100));
      RendererCopy Sprite (Some (mkRect 0 0 128 128));
      RendererPresent; Delay 20]. reflexivity.
  - exists [RendererClear], [], [ChunkPlay ChunkSDL;
      RendererCopy Text (Some (mkRect 500 500 300 100));
      RendererCopy Sprite (Some (mkRect 0 0 128 128));
      RendererPresent; Delay 20]. reflexivity.
  - intros Hb.
    repeat (apply before_cons in Hb;
            destruct Hb as [[Hc Hin] | Hb];
            [ try discriminate Hc; cbn in Hin; intuition discriminate |]).
    exact (before_nil _ _ Hb).
Qed.

(** C6, amended.  A pass without a quit transition does not return, and its
    calls come in this order: the calls of the event drain; the print of
    [moveSprite], present exactly when a movement key is held; the clear of
    the render surface; the draw of the background; the bounce sounds of
    [moveText], present exactly when the moved text is at a wall; the draw of
    the text at its moved rectangle; the draw of the sprite; the present; the
    delay of 20 ms.  So the text is moved after the clear and the background,
    and before the text is drawn. *)
Theorem frame_order (inp : Input) (w : World) :
  existsb is_quit (events inp) = false ->
  let w' := exec (frame inp) w in
  let g := game w in
  let g' := game w' in
  fst (frame inp w) = false /\
  textRect g' =
    mkRect (Int.add32 (X (textRect g)) (Int.int32 (textXVelocity g)))
           (Int.add32 (Y (textRect g)) (Int.int32 (textYVelocity g)))
           (W (textRect g)) (H (textRect g)) /\
  exists drained moved bounced : list Call,
    trace w' =
      trace w ++ drained ++ moved ++
      [RendererClear; RendererCopy Background None] ++ bounced ++
      [RendererCopy Text (Some (textRect g'));
       RendererCopy Sprite (Some (spriteRect g'));
       RendererPresent; Delay 20] /\
    forallb is_drain_call drained = true /\
    moved = (if movementKeyHeld (keyboard inp)
             then [Printf (spriteRect g')] else []) /\
    forallb is_wall_sound bounced = true /\
    (bounced = [] <-> atWall g' = false).
Proof.
  intros Hq w' g g'.
  destruct (frame_pass inp w Hq) as (Hf & Hg & Ht). cbv zeta in Hg, Ht.
  destruct (pollEvents_effect (events inp) w) as (_ & Hg1 & drained & Ht1 & Hd).
  set (w1 := exec (pollEvents (events inp)) w) in *.
  set (w2 := exec (when (movementKeyHeld (keyboard inp))
                        (moveSprite (keyboard inp))) w1) in *.
  set (w2' := exec (call (RendererCopy Background None))
                   (exec (call RendererClear) w2)) in *.
  assert (Hg2' : game w2' = game w2) by reflexivity.
  assert (Ht2' : trace w2' =
                 trace w2 ++ [RendererClear; RendererCopy Background None]).
  { unfold w2', exec, call. prog_simpl. rewrite <- app_assoc. reflexivity. }
  destruct (moveText_effect w2') as (Hr & Hvx & Hvy & Ht3 & Hs & Hsv).
  cbv zeta in Hr, Hvx, Hvy, Ht3, Hs, Hsv.
  set (w3 := exec moveText w2') in *.
  fold w' in Hg, Ht. fold g' in Hg.
  assert (Hmv : exists moved,
             trace w2 = trace w1 ++ moved /\
             textRect (game w2) = textRect (game w1) /\
             textXVelocity (game w2) = textXVelocity (game w1) /\
             textYVelocity (game w2) = textYVelocity (game w1) /\
             moved = (if movementKeyHeld (keyboard inp)
                      then [Printf (spriteRect (game w2))] else [])).
  { unfold w2, when. destruct (movementKeyHeld (keyboard inp)).
    - destruct (moveSprite_only_moves (keyboard inp) w1)
        as (x & y & Hgm & Htm). cbv zeta in Hgm, Htm.
      eexists. split; [exact Htm|]. rewrite Hgm. repeat split; reflexivity.
    - exists []. unfold exec, ret. prog_simpl. rewrite app_nil_r.
      repeat split; reflexivity. }
  destruct Hmv as (moved & Ht2 & Hmr & Hmx & Hmy & Hmoved).
  split; [exact Hf|]. split.
  { rewrite Hg, Hr, Hg2', Hmr, Hmx, Hmy. unfold g. rewrite <- Hg1.
    reflexivity. }
  exists drained, moved,
    ((if wallX (textRect (game w3)) then [ChunkPlay ChunkSDL] else []) ++
     (if wallY (textRect (game w3)) then [ChunkPlay ChunkSDL] else [])).
  split.
  { rewrite Ht, Ht3, Ht2', Ht2, Ht1, Hg. rewrite <- !app_assoc. reflexivity. }
  split; [exact Hd|]. split.
  { rewrite Hmoved, Hg, Hs, Hg2'. reflexivity. }
  rewrite Hg. unfold atWall.
  destruct (wallX (textRect (game w3))), (wallY (textRect (game w3)));
    cbn; (split; [reflexivity|]); split; intros; congruence.
Qed.

Lemma frame_order_witness :
  let inp := mkInput [KeyboardEvent sdl.K_SPACE sdl.KEYDOWN]
                     (keysDown [sdl.SCANCODE_RIGHT]) in
  existsb is_quit (events inp) = false /\
  fst (frame inp (start 300 100)) = false /\
  textRect (game (exec (frame inp) (start 300 100))) = mkRect 252 252 300 100.
Proof.
  intros inp.
  assert (Hq : existsb is_quit (events inp) = false) by reflexivity.
  destruct (frame_order inp (start 300 100) Hq) as (Hf & Hr & _).
  split; [exact Hq|]. split; [exact Hf|]. rewrite Hr. vm_compute. reflexivity.
Defined.
(** ** What every pass keeps *)

Lemma sprite_on_grid_ready (g : Game) : sprite_on_grid g -> sprite_ready g.
Proof.
  unfold sprite_on_grid, sprite_ready, in_arena, spriteWidth, spriteHeight,
    windowWidth, windowHeight.
  intros (Hv & Hw & Hh & (_ & Hx) & (_ & Hy)). rewrite Hw, Hh. lia.
Qed.

Lemma axis_move_grid (bound size pos top : Z) (back forth : bool) :
  pos mod 10 = 0 -> 0 <= pos <= top -> 0 <= size ->
  top + size <= bound < top + size + 10 -> top mod 10 = 0 ->
  axis_move bound size 10 pos back forth mod 10 = 0 /\
  0 <= axis_move bound size 10 pos back forth <= top.
Proof.
  intros Hm Hp Hs Hb Ht. unfold axis_move.
  destruct back, forth; try_move_facts;
    Z.to_euclidean_division_equations; lia.
Qed.

Lemma sprite_on_grid_moveSprite (kb : list Z) (w : World) :
  sprite_on_grid (game w) -> sprite_on_grid (game (exec (moveSprite kb) w)).
Proof.
  intros Hg. pose proof (moveSprite_axes kb w (sprite_on_grid_ready _ Hg)) as Hr.
  pose proof (moveSprite_velocity kb w) as Hv. cbv zeta in Hr.
  destruct Hg as (Hv0 & Hw & Hh & (Hxm & Hx) & (Hym & Hy)).
  unfold sprite_on_grid. rewrite Hr, Hv. cbn [X Y W H].
  rewrite Hw, Hh. unfold spriteWidth, spriteHeight, windowWidth, windowHeight.
  pose proof (axis_move_grid 800 128 (X (spriteRect (game w))) 670
    (held kb sdl.SCANCODE_LEFT || held kb sdl.SCANCODE_A)
    (held kb sdl.SCANCODE_RIGHT || held kb sdl.SCANCODE_D)
    Hxm Hx ltac:(lia) ltac:(lia) eq_refl).
  pose proof (axis_move_grid 600 128 (Y (spriteRect (game w))) 470
    (held kb sdl.SCANCODE_UP || held kb sdl.SCANCODE_W)
    (held kb sdl.SCANCODE_DOWN || held kb sdl.SCANCODE_S)
    Hym Hy ltac:(lia) ltac:(lia) eq_refl).
  tauto.
Qed.

Lemma sprite_on_grid_moveText (w : World) :
  sprite_on_grid (game w) -> sprite_on_grid (game (exec moveText w)).
Proof.
  destruct (moveText_effect w) as (_ & _ & _ & _ & Hs & Hv).
  cbv zeta in Hs, Hv. unfold sprite_on_grid. rewrite Hs, Hv. tauto.
Qed.

Lemma sprite_on_grid_Init (tw th : Z) : sprite_on_grid (Init tw th).
Proof.
  unfold sprite_on_grid, Init. cbn. repeat split; reflexivity || lia.
Qed.

(** C10.  From the sprite of [Init] (position (0, 0), size 128 x 128,
    velocity step 10), whatever the text size, the renderer colour, the
    random source and the inputs of the passes, the sprite position that
    [Run] reaches has x and y multiples of 10 with [0 <= x <= 670] and
    [0 <= y <= 470]; so x is never 672 and y never 472, and at least 2 pixels
    stay between the sprite and the right and bottom edges. *)
Theorem sprite_stays_on_grid (tw th : Z) (c : Color) (src : nat -> Z)
        (inputs : list Input) :
  let r := spriteRect (game (exec (Run inputs) (initial tw th c src))) in
  (X r mod 10 = 0 /\ 0 <= X r <= 670) /\
  (Y r mod 10 = 0 /\ 0 <= Y r <= 470) /\
  X r <> windowWidth - spriteWidth /\ Y r <> windowHeight - spriteHeight /\
  2 <= windowWidth - (X r + W r) /\ 2 <= windowHeight - (Y r + H r).
Proof.
  intros r.
  assert (Hg : sprite_on_grid (game (exec (Run inputs) (initial tw th c src)))).
  { apply Run_preserves.
    - apply sprite_on_grid_moveSprite.
    - apply sprite_on_grid_moveText.
    - apply sprite_on_grid_Init. }
  destruct Hg as (_ & Hw & Hh & Hx & Hy). fold r in Hw, Hh, Hx, Hy.
  rewrite Hw, Hh.
  unfold windowWidth, windowHeight, spriteWidth, spriteHeight. lia.
Qed.

Lemma axis_near_step (bound size pos v : Z) :
  0 <= size <= bound -> bound <= 4096 -> axis_near bound size pos v ->
  let pos' := Int.add32 pos (Int.int32 v) in
  let hit := (pos' <=? 0) || (Int.add32 pos' size >=? bound) in
  axis_near bound size pos' (if hit then Int.neg v else v).
Proof.
  intros Hs Hb Hn pos' hit. subst pos' hit. unfold axis_near in *.
  assert (Hn2 : Int.neg 2 = -2) by reflexivity.
  assert (Hn2' : Int.neg (-2) = 2) by reflexivity.
  destruct Hn as [(-> & H0 & H1) | (-> & H0 & H1)]; int_exact;
    match goal with |- context [if ?b then _ else _] => destruct b eqn:E end;
    bool_facts; rewrite ?Hn2, ?Hn2'; lia.
Qed.

Lemma text_near_arena_moveText (w : World) :
  text_near_arena (game w) -> text_near_arena (game (exec moveText w)).
Proof.
  destruct (moveText_effect w) as (Hr & Hvx & Hvy & _). cbv zeta in Hr, Hvx, Hvy.
  intros (Hw & Hh & Hx & Hy). unfold text_near_arena.
  rewrite Hvx, Hvy, Hr. unfold wallX, wallY. cbn [X Y W H].
  split; [exact Hw|]. split; [exact Hh|]. split.
  - apply (axis_near_step windowWidth); auto. unfold windowWidth; lia.
  - apply (axis_near_step windowHeight); auto. unfold windowHeight; lia.
Qed.

Lemma text_near_arena_moveSprite (kb : list Z) (w : World) :
  text_near_arena (game w) -> text_near_arena (game (exec (moveSprite kb) w)).
Proof.
  destruct (moveSprite_only_moves kb w) as (x & y & Hg & _). cbv zeta in Hg.
  rewrite Hg. unfold text_near_arena. cbn. tauto.
Qed.

Lemma text_near_arena_Init (tw th : Z) :
  0 <= tw <= windowWidth -> 0 <= th <= windowHeight ->
  text_near_arena (Init tw th).
Proof.
  unfold windowWidth, windowHeight. intros Hw Hh.
  unfold text_near_arena, axis_near, Init, Int.div32, windowWidth, windowHeight.
  cbn [textRect textXVelocity textYVelocity X Y W H].
  pose proof (Z.quot_div_nonneg (800 - tw) 2 ltac:(lia) ltac:(lia)) as Qx.
  pose proof (Z.quot_div_nonneg (600 - th) 2 ltac:(lia) ltac:(lia)) as Qy.
  assert (Bx : 0 <= (800 - tw) / 2 <= 800 - tw)
    by (Z.to_euclidean_division_equations; lia).
  assert (By : 0 <= (600 - th) / 2 <= 600 - th)
    by (Z.to_euclidean_division_equations; lia).
  unfold Int.sub32. rewrite (int32_exact (800 - tw)), (int32_exact (600 - th))
    by (unfold Int.is_int32; lia).
  rewrite Qx, Qy.
  rewrite (int32_exact ((800 - tw) / 2)), (int32_exact ((600 - th) / 2))
    by (unfold Int.is_int32; lia).
  lia.
Qed.

(** C3, as stated, fails for the text: with a text surface of 302 x 100 the
    text rectangle that [Run] reaches after 125 passes without input has
    passed the right wall by one pixel. *)
Lemma text_leaves_arena_counterexample :
  let w := exec (Run (repeat noInput 125)) (start 302 100) in
  textRect (game w) = mkRect 499 500 302 100 /\
  X (textRect (game w)) + W (textRect (game w)) = windowWidth + 1 /\
  ~ in_arena (textRect (game w)).
Proof.
  intros w.
  assert (Hr : textRect (game w) = mkRect 499 500 302 100)
    by (vm_compute; reflexivity).
  rewrite Hr. split; [reflexivity|]. split; [reflexivity|].
  unfold in_arena, windowWidth, windowHeight. cbn [X Y W H]. lia.
Qed.

(** C3, amended.  For a text surface no larger than the window, in every
    state that [Run] reaches the sprite rectangle lies fully inside the
    window, and the text rectangle is at most one velocity step (2 pixels)
    outside it on each axis: its position is at least -1 and its position
    plus its size is at most the window bound plus 2. *)
Theorem entities_near_arena (tw th : Z) (c : Color) (src : nat -> Z)
        (inputs : list Input) :
  0 <= tw <= windowWidth -> 0 <= th <= windowHeight ->
  let g := game (exec (Run inputs) (initial tw th c src)) in
  in_arena (spriteRect g) /\
  -1 <= X (textRect g) /\ X (textRect g) + W (textRect g) <= windowWidth + 2 /\
  -1 <= Y (textRect g) /\ Y (textRect g) + H (textRect g) <= windowHeight + 2.
Proof.
  intros Hw Hh g.
  assert (Hs : sprite_on_grid g).
  { apply Run_preserves.
    - apply sprite_on_grid_moveSprite.
    - apply sprite_on_grid_moveText.
    - apply sprite_on_grid_Init. }
  assert (Ht : text_near_arena g).
  { apply Run_preserves.
    - apply text_near_arena_moveSprite.
    - apply text_near_arena_moveText.
    - apply text_near_arena_Init; assumption. }
  split.
  - apply sprite_on_grid_ready in Hs. apply Hs.
  - destruct Ht as (_ & _ & Hx & Hy). unfold axis_near in Hx, Hy. lia.
Qed.

Lemma entities_near_arena_witness :
  (0 <= 301 <= windowWidth /\ 0 <= 100 <= windowHeight) /\
  let g := game (exec (Run (repeat noInput 375)) (start 301 100)) in
  X (textRect g) = -1 /\ in_arena (spriteRect g) /\
  X (textRect g) + W (textRect g) <= windowWidth + 2.
Proof.
  assert (Hw : 0 <= 301 <= windowWidth) by (unfold windowWidth; lia).
  assert (Hh : 0 <= 100 <= windowHeight) by (unfold windowHeight; lia).
  split; [split; assumption|].
  destruct (entities_near_arena 301 100 black (fun _ => 0)
              (repeat noInput 375) Hw Hh) as (Hs & _ & Hx & _).
  split; [vm_compute; reflexivity|]. split; [exact Hs | exact Hx].
Defined.
(** ** Passes without input *)

Lemma frame_idle (inp : Input) (w : World) :
  idle inp ->
  fst (frame inp w) = false /\
  game (exec (frame inp) w) = game (exec moveText w).
Proof.
  intros [He Hk].
  assert (Hq : existsb is_quit (events inp) = false) by (rewrite He; reflexivity).
  destruct (frame_pass inp w Hq) as (Hf & Hg & _). cbv zeta in Hg.
  split; [exact Hf|]. rewrite Hg, He, Hk. apply moveText_game_ext. reflexivity.
Qed.

Lemma times_game_ext (n : nat) : forall w1 w2 : World,
  game w1 = game w2 ->
  game (exec (times n moveText) w1) = game (exec (times n moveText) w2).
Proof.
  induction n as [|n IH]; intros w1 w2 Hg; [exact Hg|].
  cbn [times]. rewrite !exec_bind. apply IH, moveText_game_ext, Hg.
Qed.

Lemma loop_idle (inputs : list Input) : forall w : World,
  Forall idle inputs ->
  fst (loop inputs w) = RUNNING /\
  game (exec (loop inputs) w) =
    game (exec (times (length inputs) moveText) w).
Proof.
  induction inputs as [|inp rest IH]; intros w Hi.
  - split; reflexivity.
  - inversion Hi as [|? ? Hinp Hrest]; subst.
    destruct (frame_idle inp w Hinp) as (Hf & Hg).
    destruct (IH (exec (frame inp) w) Hrest) as (Hl & Hgl).
    cbn [loop length times]. rewrite fst_bind, !exec_bind, Hf.
    split; [exact Hl|]. rewrite Hgl. apply times_game_ext, Hg.
Qed.

Lemma times_moveText_sprite (n : nat) : forall w : World,
  spriteRect (game (exec (times n moveText) w)) = spriteRect (game w).
Proof.
  induction n as [|n IH]; intros w; [reflexivity|].
  cbn [times]. rewrite exec_bind, IH.
  destruct (moveText_effect w) as (_ & _ & _ & _ & Hs & _). exact Hs.
Qed.

Lemma times_succ (n : nat) (w : World) :
  exec (times (S n) moveText) w = exec (times n moveText) (exec moveText w).
Proof. reflexivity. Qed.

(** As long as no pass ends at a wall, the text moves on a straight line. *)
Lemma times_moveText_line (n : nat) : forall w : World,
  rect_wf (textRect (game w)) ->
  (forall j, (1 <= j <= n)%nat ->
             atWall (game (exec (times j moveText) w)) = false) ->
  let g := game w in
  let g' := game (exec (times n moveText) w) in
  textRect g' =
    mkRect (Int.int32 (X (textRect g) + Z.of_nat n * Int.int32 (textXVelocity g)))
           (Int.int32 (Y (textRect g) + Z.of_nat n * Int.int32 (textYVelocity g)))
           (W (textRect g)) (H (textRect g)) /\
  textXVelocity g' = textXVelocity g /\ textYVelocity g' = textYVelocity g.
Proof.
  induction n as [|n IH]; intros w Hwf Hfree.
  - cbv zeta. cbn [times exec ret snd]. rewrite !Z.mul_0_l, !Z.add_0_r.
    destruct Hwf as (Hx & Hy & _). rewrite !int32_exact by assumption.
    destruct (textRect (game w)); repeat split; reflexivity.
  - cbv zeta. rewrite times_succ.
    destruct (moveText_effect w) as (Hr & Hvx & Hvy & _).
    cbv zeta in Hr, Hvx, Hvy.
    pose proof (Hfree 1%nat ltac:(lia)) as H1.
    change (exec (times 1 moveText) w) with (exec moveText w) in H1.
    unfold atWall in H1. apply orb_false_iff in H1. destruct H1 as [Hwx Hwy].
    rewrite Hwx in Hvx. rewrite Hwy in Hvy.
    assert (Hwf' : rect_wf (textRect (game (exec moveText w)))).
    { rewrite Hr. destruct Hwf as (_ & _ & Hw & Hh).
      repeat split; cbn [X Y W H]; try apply int32_range; apply Hw || apply Hh. }
    assert (Hfree' : forall j, (1 <= j <= n)%nat ->
              atWall (game (exec (times j moveText) (exec moveText w))) = false).
    { intros j Hj. rewrite <- times_succ. apply Hfree. lia. }
    destruct (IH (exec moveText w) Hwf' Hfree') as (Hr' & Hvx' & Hvy').
    rewrite Hr', Hvx', Hvy', Hvx, Hvy, Hr. cbn [X Y W H].
    unfold Int.add32. rewrite !int32_add_idemp.
    repeat split; f_equal; f_equal; lia.
Qed.

(** C7.  Over any number of passes in each of which the event queue is empty
    and no movement key is held, the loop keeps running, the sprite rectangle
    at the end is the one at the start, and the game at the end is the one
    that as many calls of [moveText] alone produce, so it depends on nothing
    but the start and the number of passes; as long as no pass ends with the
    text at a wall, the text has moved by its velocity in every pass: after
    [n] passes its position is the start plus [n] times the velocity (in
    [int32] arithmetic) and its velocity is unchanged. *)
Theorem idle_passes (inputs : list Input) (w : World) :
  Forall idle inputs ->
  rect_wf (textRect (game w)) ->
  let n := length inputs in
  let g := game w in
  let g' := game (exec (loop inputs) w) in
  fst (loop inputs w) = RUNNING /\
  spriteRect g' = spriteRect g /\
  g' = game (exec (times n moveText) w) /\
  ((forall j, (1 <= j <= n)%nat ->
              atWall (game (exec (times j moveText) w)) = false) ->
   textRect g' =
     mkRect
       (Int.int32 (X (textRect g) + Z.of_nat n * Int.int32 (textXVelocity g)))
       (Int.int32 (Y (textRect g) + Z.of_nat n * Int.int32 (textYVelocity g)))
       (W (textRect g)) (H (textRect g)) /\
   textXVelocity g' = textXVelocity g /\ textYVelocity g' = textYVelocity g).
Proof.
  intros Hi Hwf n g g'. destruct (loop_idle inputs w Hi) as (Hl & Hg).
  fold g' n in Hg. split; [exact Hl|]. split.
  { rewrite Hg. apply times_moveText_sprite. }
  split; [exact Hg|].
  intros Hfree. rewrite Hg. apply times_moveText_line; assumption.
Qed.

Lemma idle_passes_witness :
  let inputs := [noInput; noInput; noInput] in
  let w := start 300 100 in
  Forall idle inputs /\ rect_wf (textRect (game w)) /\
  fst (loop inputs w) = RUNNING /\
  spriteRect (game (exec (loop inputs) w)) = mkRect 0 0 128 128 /\
  textRect (game (exec (loop inputs) w)) = mkRect 256 256 300 100.
Proof.
  intros inputs w.
  assert (Hi : Forall idle inputs).
  { repeat constructor. }
  assert (Hwf : rect_wf (textRect (game w))).
  { unfold rect_wf, Int.is_int32.
    repeat split; vm_compute; first [reflexivity | intro; discriminate]. }
  destruct (idle_passes inputs w Hi Hwf) as (Hl & Hs & _ & Hline).
  split; [exact Hi|]. split; [exact Hwf|]. split; [exact Hl|].
  split; [rewrite Hs; reflexivity|].
  destruct Hline as (Hr & _).
  { intros j Hj.
    assert (Hc : j = 1%nat \/ j = 2%nat \/ j = 3%nat) by (cbn in Hj; lia).
    destruct Hc as [-> | [-> | ->]]; vm_compute; reflexivity. }
  rewrite Hr. vm_compute. reflexivity.
Defined.

(** ** The scenario of the specification *)

Lemma untilRightWall_more (fuel extra : nat) : forall (w : World) r,
  untilRightWall fuel w = Some r ->
  untilRightWall (fuel + extra) w = Some r.
Proof.
  induction fuel as [|fuel IH]; intros w r Hr; [discriminate Hr|].
  cbn [untilRightWall Nat.add] in *.
  destruct (X (textRect (game (exec moveText w))) +
            W (textRect (game (exec moveText w))) >=? windowWidth).
  - exact Hr.
  - apply IH, Hr.
Qed.

(** The pass of the scenario is the 125th one. *)
Lemma scenario_pass :
  exists before after : World,
    untilRightWall 125 (start 300 100) = Some (before, after) /\
    game before = game (exec (times 124 moveText) (start 300 100)) /\
    textRect (game before) = mkRect 498 498 300 100 /\
    textRect (game after) = mkRect 500 500 300 100 /\
    (textXVelocity (game after) = -2 /\ textYVelocity (game after) = -2) /\
    (wallX (textRect (game after)) = true /\
     wallY (textRect (game after)) = true) /\
    emitted before after = [ChunkPlay ChunkSDL; ChunkPlay ChunkSDL].
Proof.
  eexists _, _. split; [vm_compute; reflexivity|].
  vm_compute. repeat split; reflexivity.
Qed.

(** C4, as stated, fails: in the pass in which [x + w >= 800] first holds,
    the velocity in x becomes -2, but two wall sounds are played, not one,
    because [y + h >= 600] first holds in the same pass. *)
Lemma scenario_counterexample :
  exists before after : World,
    untilRightWall 125 (start 300 100) = Some (before, after) /\
    textXVelocity (game after) = -2 /\
    length (filter is_wall_sound (emitted before after)) = 2%nat /\
    length (filter is_wall_sound (emitted before after)) <> 1%nat.
Proof.
  destruct scenario_pass as (b & a & Hu & _ & _ & _ & (Hvx & _) & _ & He).
  exists b, a. rewrite He. split; [exact Hu|]. split; [exact Hvx|].
  split; [reflexivity | discriminate].
Qed.

(** C4, amended.  From the text rectangle 300 x 100 at (250, 250) with
    velocity (2, 2), calling [moveText] until [x + w >= 800] first holds
    ends, with any fuel of at least 125 passes, in the 125th pass; that pass
    leaves the velocity in x at -2 and the velocity in y at -2 as well, and
    exactly two wall sounds are played in it, one for each axis, the text
    reaching the right and the bottom wall in the same pass. *)
Theorem scenario_right_wall (extra : nat) :
  exists before after : World,
    untilRightWall (125 + extra) (start 300 100) = Some (before, after) /\
    textRect (game (start 300 100)) = mkRect 250 250 300 100 /\
    game before = game (exec (times 124 moveText) (start 300 100)) /\
    X (textRect (game before)) + W (textRect (game before)) < windowWidth /\
    X (textRect (game after)) + W (textRect (game after)) >= windowWidth /\
    textXVelocity (game after) = -2 /\ textYVelocity (game after) = -2 /\
    wallX (textRect (game after)) = true /\
    wallY (textRect (game after)) = true /\
    emitted before after = [ChunkPlay ChunkSDL; ChunkPlay ChunkSDL].
Proof.
  destruct scenario_pass
    as (b & a & Hu & Hb & Hrb & Hra & (Hvx & Hvy) & (Hwx & Hwy) & He).
  exists b, a. split; [apply untilRightWall_more, Hu|].
  split; [reflexivity|]. split; [exact Hb|].
  rewrite Hrb, Hra. cbn [X Y W H]. unfold windowWidth.
  repeat split; try assumption; lia.
Qed.

(** ** More on the event drain *)

(** Events that follow a quit transition in the queue of a pass are never
    looked at: the drain gives the same result and the same world as if the
    queue ended with the quit transition. *)
Theorem pollEvents_stops_at_quit (q1 q2 : list Event) (e : Event) (w : World) :
  is_quit e = true ->
  pollEvents (q1 ++ e :: q2) w = pollEvents (q1 ++ [e]) w.
Proof.
  intros He. revert w. induction q1 as [|e1 q1 IH]; intros w.
  - cbn [app pollEvents]. destruct e as [|sym type|]; cbn in He.
    + reflexivity.
    + rewrite He. reflexivity.
    + discriminate He.
  - cbn [app pollEvents]. destruct e1 as [|sym type|].
    + reflexivity.
    + destruct ((sym =? sdl.K_ESCAPE) && (type =? sdl.KEYDOWN)); [reflexivity|].
      unfold bind at 1 3. apply IH.
    + apply IH.
Qed.

Lemma pollEvents_stops_at_quit_witness :
  let q1 := [KeyboardEvent sdl.K_SPACE sdl.KEYDOWN] in
  let q2 := [KeyboardEvent sdl.K_m sdl.KEYDOWN; OtherEvent] in
  is_quit QuitEvent = true /\
  pollEvents (q1 ++ QuitEvent :: q2) (start 300 100) =
  pollEvents (q1 ++ [QuitEvent]) (start 300 100).
Proof.
  intros q1 q2. split; [reflexivity|].
  apply (pollEvents_stops_at_quit q1 q2 QuitEvent (start 300 100)).
  reflexivity.
Defined.

(** Draining a queue without quit transition and then a second one is the
    drain of the two queues put together. *)
Theorem pollEvents_app (q1 q2 : list Event) (w : World) :
  existsb is_quit q1 = false ->
  pollEvents (q1 ++ q2) w = pollEvents q2 (exec (pollEvents q1) w).
Proof.
  revert w. induction q1 as [|e1 q1 IH]; intros w Hq; [reflexivity|].
  cbn [existsb] in Hq. apply orb_false_iff in Hq. destruct Hq as [He Hq].
  cbn [app pollEvents]. destruct e1 as [|sym type|]; cbn in He.
  - discriminate He.
  - rewrite He. unfold exec, bind. rewrite (IH _ Hq). reflexivity.
  - apply IH, Hq.
Qed.

Lemma pollEvents_app_witness :
  let q1 := [KeyboardEvent sdl.K_SPACE sdl.KEYDOWN; OtherEvent] in
  let q2 := [KeyboardEvent sdl.K_m sdl.KEYDOWN; QuitEvent] in
  existsb is_quit q1 = false /\
  pollEvents (q1 ++ q2) (start 300 100) =
  pollEvents q2 (exec (pollEvents q1) (start 300 100)).
Proof.
  intros q1 q2. split; [reflexivity|].
  apply (pollEvents_app q1 q2 (start 300 100)). reflexivity.
Defined.

(** What the body of the type switch does to the mixer, the random source,
    the draw colour and the trace, for a keyboard event that is not a quit
    transition. *)
Lemma key_event_tally (sym type : Z) (w : World) :
  let e := KeyboardEvent sym type in
  let m := (when ((sym =? sdl.K_SPACE) && (type =? sdl.KEYDOWN))
              (call (ChunkPlay ChunkGo) ;; randColor) ;;
            when ((sym =? sdl.K_m) && (type =? sdl.KEYDOWN))
              pauseUnpauseMusic)%prog in
  let w' := exec m w in
  musicPlaying w' = musicPlaying w /\
  musicPaused w' =
    (if is_m_down e && musicPlaying w then negb (musicPaused w)
     else musicPaused w) /\
  taken (rand w') = (taken (rand w) + (if is_space_down e then 3 else 0))%nat /\
  source (rand w') = source (rand w) /\
  (if is_space_down e then A (drawColor w') = 0
   else drawColor w' = drawColor w) /\
  exists tr,
    trace w' = trace w ++ tr /\
    length (filter is_music_call tr) =
      (if is_m_down e && musicPlaying w then 1 else 0)%nat /\
    length (filter is_go_sound tr) = (if is_space_down e then 1 else 0)%nat.
Proof.
  destruct w as [g dc mp mpa [src k] tr]. cbv zeta. cbn [is_m_down is_space_down].
  destruct ((sym =? sdl.K_SPACE) && (type =? sdl.KEYDOWN));
    destruct ((sym =? sdl.K_m) && (type =? sdl.KEYDOWN));
    destruct mp, mpa; prog_unfold; prog_simpl; cbn [andb negb];
    rewrite ?Nat.add_0_r, <- ?app_assoc;
    repeat (split; [first [reflexivity | lia]|]);
    eexists; (split; [try reflexivity; symmetry; apply app_nil_r|]);
    split; reflexivity.
Qed.

Lemma odd_succ_xor (b : bool) (n : nat) :
  xorb (negb b) (Nat.odd n) = xorb b (Nat.odd (S n)).
Proof.
  rewrite Nat.odd_succ, <- Nat.negb_odd.
  destruct b, (Nat.odd n); reflexivity.
Qed.

Lemma pollEvents_tally (queue : list Event) : forall w : World,
  let w' := exec (pollEvents queue) w in
  let nm := length (filter is_m_down (handled queue)) in
  let ns := length (filter is_space_down (handled queue)) in
  musicPlaying w' = musicPlaying w /\
  musicPaused w' =
    (if musicPlaying w then xorb (musicPaused w) (Nat.odd nm)
     else musicPaused w) /\
  taken (rand w') = (taken (rand w) + 3 * ns)%nat /\
  source (rand w') = source (rand w) /\
  (ns = O -> drawColor w' = drawColor w) /\
  (ns <> O -> A (drawColor w') = 0) /\
  exists tr,
    trace w' = trace w ++ tr /\
    length (filter is_music_call tr) = (if musicPlaying w then nm else O) /\
    length (filter is_go_sound tr) = ns.
Proof.
  induction queue as [|e queue IH]; intros w; cbv zeta.
  - cbn. rewrite Nat.add_0_r. destruct (musicPlaying w), (musicPaused w);
      repeat (split; [first [reflexivity | intros; congruence]|]);
      exists []; rewrite app_nil_r; repeat split; reflexivity.
  - assert (Hstop : is_quit e = true ->
              exec (pollEvents (e :: queue)) w = w /\ handled (e :: queue) = []).
    { intros He. cbn [handled]. rewrite He. split; [|reflexivity].
      destruct e as [|sym type|]; cbn in He; cbn [pollEvents].
      - reflexivity.
      - rewrite He. reflexivity.
      - discriminate He. }
    destruct (is_quit e) eqn:He.
    + destruct (Hstop eq_refl) as (-> & ->). cbn. rewrite Nat.add_0_r.
      destruct (musicPlaying w), (musicPaused w);
        repeat (split; [first [reflexivity | intros; congruence]|]);
        exists []; rewrite app_nil_r; repeat split; reflexivity.
    + clear Hstop. cbn [handled]. rewrite He.
      destruct e as [|sym type|]; cbn in He; [discriminate He| |].
      * cbn [pollEvents]. rewrite He.
        pose proof (key_event_tally sym type w) as Hk. cbv zeta in Hk.
        match type of Hk with
        | musicPlaying (exec ?m w) = _ /\ _ => set (w1 := exec m w) in *
        end.
        change (exec _ w) with (exec (pollEvents queue) w1).
        specialize (IH w1). cbv zeta in IH.
        set (e := KeyboardEvent sym type) in *.
        destruct Hk as (Kp & Kpa & Kt & Ks & Kc & tr1 & Ktr & Km & Kg).
        destruct IH as (Ip & Ipa & It & Is & Ic0 & Ic1 & tr2 & Itr & Im & Ig).
        cbn [filter].
        set (nm := length (filter is_m_down (handled queue))) in *.
        set (ns := length (filter is_space_down (handled queue))) in *.
        split; [congruence|]. split.
        { rewrite Ipa, Kp, Kpa.
          destruct (is_m_down e), (musicPlaying w); cbn [andb length];
            try reflexivity. apply odd_succ_xor. }
        split.
        { rewrite It, Kt. destruct (is_space_down e); cbn [length]; lia. }
        split; [congruence|]. split.
        { destruct (is_space_down e); cbn [length]; [discriminate|].
          intros Hn. rewrite (Ic0 Hn). exact Kc. }
        split.
        { intros Hn. destruct (Nat.eq_dec ns 0) as [Hz|Hz].
          - rewrite (Ic0 Hz). destruct (is_space_down e); cbn [length] in *.
            + exact Kc.
            + contradiction.
          - apply Ic1, Hz. }
        exists (tr1 ++ tr2). split; [rewrite Itr, Ktr, app_assoc; reflexivity|].
        rewrite !filter_app, !length_app, Km, Kg, Im, Ig, Kp.
        destruct (is_m_down e), (is_space_down e), (musicPlaying w);
          cbn [andb length]; split; lia.
      * cbn [pollEvents filter is_m_down is_space_down]. apply IH.
Qed.


(** Every space key-down handled by the drain plays the sprite sound once
    and takes three values from the random source; the draw colour is
    untouched when there is none, and has alpha 0 when there is one. *)
Theorem pollEvents_space_colour (queue : list Event) (w : World) :
  let w' := exec (pollEvents queue) w in
  let n := length (filter is_space_down (handled queue)) in
  length (filter is_go_sound (emitted w w')) = n /\
  taken (rand w') = (taken (rand w) + 3 * n)%nat /\
  source (rand w') = source (rand w) /\
  (n = O -> drawColor w' = drawColor w) /\
  (n <> O -> A (drawColor w') = 0).
Proof.
  destruct (pollEvents_tally queue w)
    as (_ & _ & Ht & Hs & Hc0 & Hc1 & tr & Htr & _ & Hg).
  cbv zeta in *. unfold emitted. rewrite Htr, skipn_app_exact. auto.
Qed.


(** ** Programs that touch the game and the trace only *)











(** ** Over a whole run *)

Lemma frame_fst (inp : Input) (w : World) : fst (frame inp w) = quits inp.
Proof.
  unfold quits. destruct (existsb is_quit (events inp)) eqn:Hq.
  - apply (frame_quit inp w Hq).
  - apply (frame_pass inp w Hq).
Qed.





(** The calls a pass makes, by kind. *)
Lemma frame_calls (inp : Input) (w : World) :
  exists pre bounced,
    trace (exec (frame inp) w) =
      trace w ++ pre ++
      (if quits inp then []
       else [RendererClear; RendererCopy Background None] ++ bounced ++
            [RendererCopy Text (Some (textRect (game (exec (frame inp) w))));
             RendererCopy Sprite (Some (spriteRect (game (exec (frame inp) w))));
             RendererPresent; Delay 20]) /\
    forallb (fun c => negb (is_pass_call c)) pre = true /\
    forallb is_wall_sound bounced = true.
Proof.
  unfold quits.
  destruct (pollEvents_effect (events inp) w) as (_ & _ & drained & Ht1 & Hd).
  assert (Hdr : forallb (fun c => negb (is_pass_call c)) drained = true).
  { rewrite forallb_forall in *. intros c Hc. specialize (Hd c Hc).
    destruct c as [| | [|] | | | | | | |]; try discriminate; reflexivity. }
  destruct (existsb is_quit (events inp)) eqn:Hq.
  - destruct (frame_quit inp w Hq) as (_ & ->).
    exists drained, []. rewrite app_nil_r. auto.
  - destruct (frame_pass inp w Hq) as (_ & Hg & Ht). cbv zeta in Hg, Ht.
    set (w1 := exec (pollEvents (events inp)) w) in *.
    set (w2 := exec (when (movementKeyHeld (keyboard inp))
                          (moveSprite (keyboard inp))) w1) in *.
    set (w2' := exec (call (RendererCopy Background None))
                     (exec (call RendererClear) w2)) in *.
    assert (Ht2' : trace w2' =
                   trace w2 ++ [RendererClear; RendererCopy Background None]).
    { unfold w2', exec, call. prog_simpl. rewrite <- app_assoc. reflexivity. }
    destruct (moveText_effect w2') as (_ & _ & _ & Ht3 & _).
    cbv zeta in Ht3.
    assert (Hmv : exists moved, trace w2 = trace w1 ++ moved /\
              forallb (fun c => negb (is_pass_call c)) moved = true).
    { unfold w2, when. destruct (movementKeyHeld (keyboard inp)).
      - destruct (moveSprite_only_moves (keyboard inp) w1)
          as (x & y & _ & Htm). cbv zeta in Htm.
        eexists. split; [exact Htm | reflexivity].
      - exists []. rewrite app_nil_r. split; reflexivity. }
    destruct Hmv as (moved & Ht2 & Hm).
    set (w3 := exec moveText w2') in *.
    exists (drained ++ moved),
      ((if wallX (textRect (game w3)) then [ChunkPlay ChunkSDL] else []) ++
       (if wallY (textRect (game w3)) then [ChunkPlay ChunkSDL] else [])).
    split.
    { rewrite Ht, Hg, Ht3, Ht2', Ht2, Ht1. rewrite <- !app_assoc.
      reflexivity. }
    split.
    { rewrite forallb_app, Hdr, Hm. reflexivity. }
    destruct (wallX _), (wallY _); reflexivity.
Qed.

Lemma filter_none (p q : Call -> bool) (l : list Call) :
  forallb q l = true -> (forall c, q c = true -> p c = false) ->
  filter p l = [].
Proof.
  intros Hl Hpq. induction l as [|c l IH]; [reflexivity|].
  cbn in Hl. apply andb_true_iff in Hl. destruct Hl as [Hc Hl].
  cbn. rewrite (Hpq c Hc). apply IH, Hl.
Qed.

Section PassCalls.
Variable p : Call -> bool.
Hypothesis p_pass : forall c, is_pass_call c = false -> p c = false.
Hypothesis p_copy : forall t r r', p (RendererCopy t r) = p (RendererCopy t r').

Let shape : list Call :=
  filter p [RendererClear; RendererCopy Background None;
            RendererCopy Text None; RendererCopy Sprite None;
            RendererPresent; Delay 20].

Lemma frame_filter (inp : Input) (w : World) :
  map forget_rect (filter p (trace (exec (frame inp) w))) =
  map forget_rect (filter p (trace w)) ++ (if quits inp then [] else shape).
Proof.
  destruct (frame_calls inp w) as (pre & bounced & Ht & Hpre & Hb).
  rewrite Ht, !filter_app.
  rewrite (filter_none p _ pre Hpre).
  2:{ intros c Hc. apply p_pass. destruct (is_pass_call c); [discriminate|auto]. }
  destruct (quits inp); [cbn; rewrite ?app_nil_r; reflexivity|].
  rewrite !filter_app, (filter_none p _ bounced Hb).
  2:{ intros c Hc. apply p_pass.
      destruct c as [| | [|] | | | | | | |]; try discriminate; reflexivity. }
  unfold shape. cbn [app]. rewrite map_app. f_equal.
  cbn [filter].
  rewrite (p_copy Text _ None), (p_copy Sprite _ None).
  destruct (p RendererClear), (p (RendererCopy Background None)),
    (p (RendererCopy Text None)), (p (RendererCopy Sprite None)),
    (p RendererPresent), (p (Delay 20)); reflexivity.
Qed.

Lemma loop_filter (inputs : list Input) : forall w : World,
  map forget_rect (filter p (trace (exec (loop inputs) w))) =
  map forget_rect (filter p (trace w)) ++
  concat (repeat shape (passes_before_quit inputs)).
Proof.
  induction inputs as [|inp rest IH]; intros w.
  - cbn. rewrite app_nil_r. reflexivity.
  - cbn [loop passes_before_quit]. rewrite exec_bind, frame_fst.
    pose proof (frame_filter inp w) as Hf.
    destruct (quits inp).
    + change (exec (ret TERMINATED) (exec (frame inp) w))
        with (exec (frame inp) w).
      rewrite Hf. reflexivity.
    + rewrite IH, Hf. cbn [repeat concat]. rewrite <- !app_assoc.
      reflexivity.
Qed.

Lemma loop_extends (inputs : list Input) : forall w : World,
  exists tr, trace (exec (loop inputs) w) = trace w ++ tr.
Proof.
  induction inputs as [|inp rest IH]; intros w.
  - exists []. rewrite app_nil_r. reflexivity.
  - cbn [loop]. rewrite exec_bind.
    destruct (frame_calls inp w) as (pre & b & Ht & _).
    destruct (fst (frame inp w)).
    + eexists. exact Ht.
    + destruct (IH (exec (frame inp) w)) as (tr & Htr).
      eexists. rewrite Htr, Ht, <- app_assoc. reflexivity.
Qed.

Lemma Run_filter (inputs : list Input) (w : World) :
  map forget_rect (filter p (emitted w (exec (Run inputs) w))) =
  concat (repeat shape (passes_before_quit inputs)).
Proof.
  unfold Run. rewrite !exec_bind.
  match goal with
  | |- context [exec (loop inputs) ?w0] => set (w1 := w0)
  end.
  assert (H1 : trace w1 =
               trace w ++ [MusicPlay (-1); Printf (spriteRect (game w))]).
  { unfold w1, exec, musicPlay, getGame, call. prog_simpl.
    rewrite <- app_assoc. reflexivity. }
  destruct (loop_extends inputs w1) as (tr & Htr).
  pose proof (loop_filter inputs w1) as Hl.
  rewrite Htr, filter_app, map_app in Hl. apply app_inv_head in Hl.
  unfold emitted. rewrite Htr, H1, <- app_assoc, skipn_app_exact, filter_app.
  cbn [filter app].
  rewrite (p_pass (MusicPlay (-1)) eq_refl), (p_pass (Printf _) eq_refl).
  exact Hl.
Qed.
End PassCalls.

Lemma concat_repeat_one {T} (x : T) (n : nat) :
  concat (repeat [x] n) = repeat x n.
Proof.
  induction n as [|n IH]; [reflexivity|].
  cbn [repeat concat app]. rewrite IH. reflexivity.
Qed.

Lemma forget_rect_delays (l : list Call) (n : nat) :
  map forget_rect l = repeat (Delay 20) n -> l = repeat (Delay 20) n.
Proof.
  revert n. induction l as [|c l IH]; intros [|n] Hl; try discriminate Hl.
  - reflexivity.
  - cbn in Hl. injection Hl as Hc Hl. rewrite (IH n Hl). cbn. f_equal.
    destruct c; try discriminate Hc; exact Hc.
Qed.

Lemma loop_status (inputs : list Input) : forall w : World,
  fst (loop inputs w) = if existsb quits inputs then TERMINATED else RUNNING.
Proof.
  induction inputs as [|inp rest IH]; intros w; [reflexivity|].
  cbn [loop existsb]. rewrite fst_bind, frame_fst.
  destruct (quits inp); [reflexivity | apply IH].
Qed.

Lemma length_concat_repeat {T} (l : list T) (n : nat) :
  length (concat (repeat l n)) = (n * length l)%nat.
Proof.
  induction n as [|n IH]; [reflexivity|].
  cbn [repeat concat]. rewrite length_app, IH. lia.
Qed.

(** A run renders one frame for every pass completed before the first pass
    that quits: among the calls of [Run] there are as many clears and as many
    presents as such passes, three texture copies for each, and one delay of
    20 ms for each; [Run] has returned exactly when some pass quits. *)
Theorem Run_frames (inputs : list Input) (w : World) :
  let tr := emitted w (exec (Run inputs) w) in
  let n := passes_before_quit inputs in
  length (filter is_clear tr) = n /\
  length (filter is_present tr) = n /\
  length (filter is_copy tr) = (3 * n)%nat /\
  filter is_delay tr = repeat (Delay 20) n /\
  fst (Run inputs w) = if existsb quits inputs then TERMINATED else RUNNING.
Proof.
  cbv zeta.
  assert (Hpass : forall p : Call -> bool,
            (p = is_clear \/ p = is_present \/ p = is_copy \/ p = is_delay) ->
            (forall c, is_pass_call c = false -> p c = false) /\
            (forall t r r', p (RendererCopy t r) = p (RendererCopy t r'))).
  { intros p Hp. split.
    - intros c Hc. unfold is_pass_call in Hc.
      repeat (apply orb_false_iff in Hc; destruct Hc as [Hc ?]).
      destruct Hp as [-> | [-> | [-> | ->]]]; assumption.
    - intros t r r'. destruct Hp as [-> | [-> | [-> | ->]]]; reflexivity. }
  destruct (Hpass is_clear ltac:(auto)) as (C1 & C2).
  destruct (Hpass is_present ltac:(auto)) as (P1 & P2).
  destruct (Hpass is_copy ltac:(auto)) as (Y1 & Y2).
  destruct (Hpass is_delay ltac:(auto)) as (D1 & D2).
  pose proof (Run_filter is_clear C1 C2 inputs w) as Hc.
  pose proof (Run_filter is_present P1 P2 inputs w) as Hp.
  pose proof (Run_filter is_copy Y1 Y2 inputs w) as Hy.
  pose proof (Run_filter is_delay D1 D2 inputs w) as Hd.
  cbn [filter is_clear is_present is_copy is_delay] in Hc, Hp, Hy, Hd.
  apply (f_equal (@length Call)) in Hc, Hp, Hy.
  rewrite length_map, length_concat_repeat in Hc, Hp, Hy.
  cbn [length] in Hc, Hp, Hy.
  repeat (split; [lia|]). split.
  - apply forget_rect_delays. rewrite Hd. apply concat_repeat_one.
  - unfold Run. rewrite !fst_bind. apply loop_status.
Qed.

Lemma loop_compose (a b : list Input) (w : World) :
  existsb quits a = false ->
  loop (a ++ b) w = loop b (exec (loop a) w).
Proof.
  revert w. induction a as [|inp a IH]; intros w Hq; [reflexivity|].
  cbn [existsb] in Hq. apply orb_false_iff in Hq. destruct Hq as [Hi Ha].
  cbn [app loop]. unfold bind at 1. rewrite exec_bind, frame_fst, Hi.
  apply IH, Ha.
Qed.

(** Passes without quit followed by further passes are the loop over all of
    them: the loop composes. *)
Theorem loop_app (a b : list Input) (w : World) :
  existsb quits a = false ->
  loop (a ++ b) w = loop b (exec (loop a) w).
Proof.
  intros Hq. rewrite (loop_compose a b w Hq). reflexivity.
Qed.

Lemma loop_app_witness :
  let a := [noInput; mkInput [] (keysDown [sdl.SCANCODE_RIGHT])] in
  let b := [mkInput [QuitEvent] (keysDown [])] in
  existsb quits a = false /\
  loop (a ++ b) (start 300 100) = loop b (exec (loop a) (start 300 100)).
Proof.
  intros a b. split; [reflexivity|].
  apply (loop_app a b (start 300 100)). reflexivity.
Defined.

(** ** More on the sprite *)

(** With both keys of an axis held, [moveSprite] never moves the sprite
    towards 0 on that axis: the position stays, or goes one step away from 0,
    and it does the latter exactly when the move towards 0 is blocked and the
    move away from it is not. *)
Theorem moveSprite_opposing_keys (kb : list Z) (w : World) :
  let r := spriteRect (game w) in
  let r' := spriteRect (game (exec (moveSprite kb) w)) in
  sprite_ready (game w) ->
  (held kb sdl.SCANCODE_UP || held kb sdl.SCANCODE_W = true ->
   held kb sdl.SCANCODE_DOWN || held kb sdl.SCANCODE_S = true ->
   (Y r' = Y r \/ Y r' = Y r + 10) /\
   (Y r' = Y r + 10 <-> Y r < 10 /\ Y r + H r + 10 <= windowHeight)) /\
  (held kb sdl.SCANCODE_LEFT || held kb sdl.SCANCODE_A = true ->
   held kb sdl.SCANCODE_RIGHT || held kb sdl.SCANCODE_D = true ->
   (X r' = X r \/ X r' = X r + 10) /\
   (X r' = X r + 10 <-> X r < 10 /\ X r + W r + 10 <= windowWidth)).
Proof.
  intros r r' Hr. pose proof (moveSprite_axes kb w Hr) as Hax.
  cbv zeta in Hax. fold r r' in Hax. rewrite Hax. cbn [X Y].
  destruct Hr as (_ & Hw & Hh & Hx0 & Hx1 & Hy0 & Hy1). fold r in Hw, Hh, Hx0, Hx1, Hy0, Hy1.
  unfold windowWidth, windowHeight in *.
  split; intros -> ->; unfold axis_move; try_move_facts; lia.
Qed.

Lemma moveSprite_opposing_keys_witness :
  let kb := keysDown [sdl.SCANCODE_UP; sdl.SCANCODE_DOWN] in
  let w := start 300 100 in
  sprite_ready (game w) /\
  held kb sdl.SCANCODE_UP || held kb sdl.SCANCODE_W = true /\
  held kb sdl.SCANCODE_DOWN || held kb sdl.SCANCODE_S = true /\
  Y (spriteRect (game (exec (moveSprite kb) w))) = 10.
Proof.
  intros kb w.
  assert (Hr : sprite_ready (game w)).
  { apply sprite_on_grid_ready, sprite_on_grid_Init. }
  assert (Hu : held kb sdl.SCANCODE_UP || held kb sdl.SCANCODE_W = true)
    by reflexivity.
  assert (Hd : held kb sdl.SCANCODE_DOWN || held kb sdl.SCANCODE_S = true)
    by reflexivity.
  destruct (moveSprite_opposing_keys kb w Hr) as (Hy & _).
  destruct (Hy Hu Hd) as (_ & Hiff).
  repeat (split; [assumption|]).
  change 10 with (Y (spriteRect (game w)) + 10). apply Hiff.
  unfold windowHeight. vm_compute. split; [reflexivity | discriminate].
Defined.

(** A move that [moveSprite] applied is undone by the opposite key: for a
    sprite inside the window, right then left, left then right, down then up
    and up then down bring the rectangle back whenever the first move was
    not blocked. *)
Theorem moveSprite_round_trip (kbU kbD kbL kbR : list Z) (w : World) :
  let r := spriteRect (game w) in
  let after kb1 kb2 :=
    spriteRect (game (exec (moveSprite kb2) (exec (moveSprite kb1) w))) in
  sprite_ready (game w) ->
  directions kbU = (true, false, false, false) ->
  directions kbD = (false, true, false, false) ->
  directions kbL = (false, false, true, false) ->
  directions kbR = (false, false, false, true) ->
  (X r + W r + 10 <= windowWidth -> after kbR kbL = r) /\
  (10 <= X r -> after kbL kbR = r) /\
  (Y r + H r + 10 <= windowHeight -> after kbD kbU = r) /\
  (10 <= Y r -> after kbU kbD = r).
Proof.
  intros r after Hr HU HD HL HR.
  assert (Hstep : forall kb, sprite_ready (game (exec (moveSprite kb) w))).
  { intros kb. pose proof (moveSprite_axes kb w Hr) as Hax.
    cbv zeta in Hax. pose proof (moveSprite_velocity kb w) as Hv.
    destruct Hr as (Hv0 & Hw & Hh & Hx0 & Hx1 & Hy0 & Hy1).
    unfold sprite_ready, in_arena. rewrite Hax, Hv. cbn [X Y W H].
    pose proof (axis_move_inside windowWidth (W (spriteRect (game w))) 10
      (X (spriteRect (game w)))
      (held kb sdl.SCANCODE_LEFT || held kb sdl.SCANCODE_A)
      (held kb sdl.SCANCODE_RIGHT || held kb sdl.SCANCODE_D) Hx0 Hx1).
    pose proof (axis_move_inside windowHeight (H (spriteRect (game w))) 10
      (Y (spriteRect (game w)))
      (held kb sdl.SCANCODE_UP || held kb sdl.SCANCODE_W)
      (held kb sdl.SCANCODE_DOWN || held kb sdl.SCANCODE_S) Hy0 Hy1).
    tauto. }
  assert (Hafter : forall kb1 kb2,
    after kb1 kb2 =
    mkRect
      (axis_move windowWidth (W r) 10
         (axis_move windowWidth (W r) 10 (X r)
            (held kb1 sdl.SCANCODE_LEFT || held kb1 sdl.SCANCODE_A)
            (held kb1 sdl.SCANCODE_RIGHT || held kb1 sdl.SCANCODE_D))
         (held kb2 sdl.SCANCODE_LEFT || held kb2 sdl.SCANCODE_A)
         (held kb2 sdl.SCANCODE_RIGHT || held kb2 sdl.SCANCODE_D))
      (axis_move windowHeight (H r) 10
         (axis_move windowHeight (H r) 10 (Y r)
            (held kb1 sdl.SCANCODE_UP || held kb1 sdl.SCANCODE_W)
            (held kb1 sdl.SCANCODE_DOWN || held kb1 sdl.SCANCODE_S))
         (held kb2 sdl.SCANCODE_UP || held kb2 sdl.SCANCODE_W)
         (held kb2 sdl.SCANCODE_DOWN || held kb2 sdl.SCANCODE_S))
      (W r) (H r)).
  { intros kb1 kb2. unfold after.
    rewrite (moveSprite_axes kb2 _ (Hstep kb1)).
    rewrite (moveSprite_axes kb1 w Hr). reflexivity. }
  unfold directions in HU, HD, HL, HR.
  injection HU as HU1 HU2 HU3 HU4. injection HD as HD1 HD2 HD3 HD4.
  injection HL as HL1 HL2 HL3 HL4. injection HR as HR1 HR2 HR3 HR4.
  destruct Hr as (_ & Hw & Hh & Hx0 & Hx1 & Hy0 & Hy1).
  fold r in Hw, Hh, Hx0, Hx1, Hy0, Hy1.
  unfold windowWidth, windowHeight in *.
  repeat split; intros Hfree; rewrite Hafter;
    rewrite ?HU1, ?HU2, ?HU3, ?HU4, ?HD1, ?HD2, ?HD3, ?HD4,
            ?HL1, ?HL2, ?HL3, ?HL4, ?HR1, ?HR2, ?HR3, ?HR4;
    unfold axis_move; try_move_facts;
    (destruct r as [x y sw sh]; cbn [X Y W H] in *; f_equal; lia).
Qed.

Lemma moveSprite_round_trip_witness :
  let kbU := keysDown [sdl.SCANCODE_W] in
  let kbD := keysDown [sdl.SCANCODE_DOWN] in
  let kbL := keysDown [sdl.SCANCODE_A] in
  let kbR := keysDown [sdl.SCANCODE_RIGHT] in
  let w := start 300 100 in
  sprite_ready (game w) /\
  directions kbU = (true, false, false, false) /\
  directions kbD = (false, true, false, false) /\
  directions kbL = (false, false, true, false) /\
  directions kbR = (false, false, false, true) /\
  spriteRect (game (exec (moveSprite kbL) (exec (moveSprite kbR) w))) =
    spriteRect (game w).
Proof.
  intros kbU kbD kbL kbR w.
  assert (Hr : sprite_ready (game w)).
  { apply sprite_on_grid_ready, sprite_on_grid_Init. }
  assert (HU : directions kbU = (true, false, false, false)) by reflexivity.
  assert (HD : directions kbD = (false, true, false, false)) by reflexivity.
  assert (HL : directions kbL = (false, false, true, false)) by reflexivity.
  assert (HR : directions kbR = (false, false, false, true)) by reflexivity.
  destruct (moveSprite_round_trip kbU kbD kbL kbR w Hr HU HD HL HR)
    as (Hrl & _).
  repeat (split; [assumption|]).
  apply Hrl. vm_compute. discriminate.
Defined.

(** The sprite after a pass without events. *)
Lemma frame_sprite (inp : Input) (w : World) :
  events inp = [] ->
  fst (frame inp w) = false /\
  spriteRect (game (exec (frame inp) w)) =
    spriteRect (game (exec (when (movementKeyHeld (keyboard inp))
                                 (moveSprite (keyboard inp))) w)).
Proof.
  intros He.
  assert (Hq : existsb is_quit (events inp) = false) by (rewrite He; reflexivity).
  destruct (frame_pass inp w Hq) as (Hf & Hg & _). cbv zeta in Hg.
  split; [exact Hf|]. rewrite Hg, He.
  match goal with
  | |- spriteRect (game (exec moveText ?w2)) = _ =>
      destruct (moveText_effect w2) as (_ & _ & _ & _ & Hs & _)
  end.
  cbv zeta in Hs. rewrite Hs. reflexivity.
Qed.

Lemma sprite_on_grid_frame (inp : Input) (w : World) :
  sprite_on_grid (game w) -> sprite_on_grid (game (exec (frame inp) w)).
Proof.
  apply frame_preserves.
  - apply sprite_on_grid_moveSprite.
  - apply sprite_on_grid_moveText.
Qed.

Lemma passes_right (n : nat) : forall w : World,
  sprite_on_grid (game w) ->
  X (spriteRect (game w)) + 10 * Z.of_nat n <= 670 ->
  let w' := exec (loop (repeat rightPass n)) w in
  sprite_on_grid (game w') /\
  X (spriteRect (game w')) = X (spriteRect (game w)) + 10 * Z.of_nat n /\
  Y (spriteRect (game w')) = Y (spriteRect (game w)).
Proof.
  induction n as [|n IH]; intros w Hg Hx; cbv zeta.
  - cbn. split; [exact Hg|]. split; [lia | reflexivity].
  - cbn [repeat loop]. rewrite exec_bind.
    destruct (frame_sprite rightPass w eq_refl) as (Hf & Hs).
    rewrite Hf.
    change (movementKeyHeld (keyboard rightPass)) with true in Hs.
    cbn [when] in Hs.
    rewrite (moveSprite_axes _ w (sprite_on_grid_ready _ Hg)) in Hs.
    change (held (keyboard rightPass) sdl.SCANCODE_LEFT ||
            held (keyboard rightPass) sdl.SCANCODE_A) with false in Hs.
    change (held (keyboard rightPass) sdl.SCANCODE_RIGHT ||
            held (keyboard rightPass) sdl.SCANCODE_D) with true in Hs.
    change (held (keyboard rightPass) sdl.SCANCODE_UP ||
            held (keyboard rightPass) sdl.SCANCODE_W) with false in Hs.
    change (held (keyboard rightPass) sdl.SCANCODE_DOWN ||
            held (keyboard rightPass) sdl.SCANCODE_S) with false in Hs.
    unfold axis_move in Hs.
    pose proof (sprite_on_grid_frame rightPass w Hg) as Hg1.
    destruct Hg as (_ & Hw & Hh & (_ & Hx0) & (_ & Hy0)).
    rewrite try_move_applied in Hs
      by (rewrite ?Hw; unfold windowWidth, spriteWidth; lia).
    destruct (IH (exec (frame rightPass) w) Hg1) as (Ig & Ix & Iy).
    { rewrite Hs. cbn [X]. lia. }
    split; [exact Ig|]. rewrite Ix, Iy, Hs. cbn [X Y]. split; lia.
Qed.

Lemma passes_down (n : nat) : forall w : World,
  sprite_on_grid (game w) ->
  Y (spriteRect (game w)) + 10 * Z.of_nat n <= 470 ->
  let w' := exec (loop (repeat downPass n)) w in
  sprite_on_grid (game w') /\
  X (spriteRect (game w')) = X (spriteRect (game w)) /\
  Y (spriteRect (game w')) = Y (spriteRect (game w)) + 10 * Z.of_nat n.
Proof.
  induction n as [|n IH]; intros w Hg Hy; cbv zeta.
  - cbn. split; [exact Hg|]. split; [reflexivity | lia].
  - cbn [repeat loop]. rewrite exec_bind.
    destruct (frame_sprite downPass w eq_refl) as (Hf & Hs).
    rewrite Hf.
    change (movementKeyHeld (keyboard downPass)) with true in Hs.
    cbn [when] in Hs.
    rewrite (moveSprite_axes _ w (sprite_on_grid_ready _ Hg)) in Hs.
    change (held (keyboard downPass) sdl.SCANCODE_LEFT ||
            held (keyboard downPass) sdl.SCANCODE_A) with false in Hs.
    change (held (keyboard downPass) sdl.SCANCODE_RIGHT ||
            held (keyboard downPass) sdl.SCANCODE_D) with false in Hs.
    change (held (keyboard downPass) sdl.SCANCODE_UP ||
            held (keyboard downPass) sdl.SCANCODE_W) with false in Hs.
    change (held (keyboard downPass) sdl.SCANCODE_DOWN ||
            held (keyboard downPass) sdl.SCANCODE_S) with true in Hs.
    unfold axis_move in Hs.
    pose proof (sprite_on_grid_frame downPass w Hg) as Hg1.
    destruct Hg as (_ & Hw & Hh & (_ & Hx0) & (_ & Hy0)).
    rewrite try_move_applied in Hs
      by (rewrite ?Hh; unfold windowHeight, spriteHeight; lia).
    destruct (IH (exec (frame downPass) w) Hg1) as (Ig & Ix & Iy).
    { rewrite Hs. cbn [Y]. lia. }
    split; [exact Ig|]. rewrite Ix, Iy, Hs. cbn [X Y]. split; lia.
Qed.

Lemma repeat_no_quit (inp : Input) (n : nat) :
  quits inp = false -> existsb quits (repeat inp n) = false.
Proof.
  intros Hq. induction n as [|n IH]; [reflexivity|].
  cbn. rewrite Hq. exact IH.
Qed.

(** Every position of the grid is reached: for each [i <= 67] and
    [j <= 47] some inputs bring the sprite of [Init] to [(10 i, 10 j)]; with
    the bounds of the grid this makes the grid exactly the set of sprite
    positions of [Run]. *)
Theorem sprite_grid_reachable (tw th : Z) (c : Color) (src : nat -> Z)
        (i j : nat) :
  (i <= 67)%nat -> (j <= 47)%nat ->
  exists inputs : list Input,
    spriteRect (game (exec (Run inputs) (initial tw th c src))) =
    mkRect (10 * Z.of_nat i) (10 * Z.of_nat j) spriteWidth spriteHeight.
Proof.
  intros Hi Hj. exists (repeat rightPass i ++ repeat downPass j).
  unfold Run. rewrite !exec_bind.
  match goal with
  | |- context [exec (loop _) ?w0] => set (w1 := w0)
  end.
  assert (Hg1 : sprite_on_grid (game w1)) by apply sprite_on_grid_Init.
  assert (Hr1 : spriteRect (game w1) = mkRect 0 0 spriteWidth spriteHeight)
    by reflexivity.
  assert (Hc : exec (loop (repeat rightPass i ++ repeat downPass j)) w1 =
               exec (loop (repeat downPass j))
                    (exec (loop (repeat rightPass i)) w1)).
  { pose proof (loop_compose (repeat rightPass i) (repeat downPass j) w1
                  (repeat_no_quit rightPass i eq_refl)) as Hl.
    unfold exec at 1. rewrite Hl. reflexivity. }
  rewrite Hc. clear Hc.
  destruct (passes_right i w1 Hg1) as (Hg2 & Hx2 & Hy2).
  { rewrite Hr1. cbn [X]. lia. }
  cbv zeta in Hg2, Hx2, Hy2.
  destruct (passes_down j _ Hg2) as (Hg3 & Hx3 & Hy3).
  { rewrite Hy2, Hr1. cbn [Y]. lia. }
  cbv zeta in Hg3, Hx3, Hy3.
  destruct Hg3 as (_ & Hw & Hh & _).
  rewrite Hr1 in Hx2, Hy2. cbn [X Y] in Hx2, Hy2.
  rewrite Hx2 in Hx3. rewrite Hy2 in Hy3.
  destruct (spriteRect (game (exec (loop (repeat downPass j))
    (exec (loop (repeat rightPass i)) w1)))) as [x y sw sh].
  cbn [X Y W H] in *. subst. f_equal; lia.
Qed.

Lemma sprite_grid_reachable_witness :
  (67 <= 67)%nat /\ (47 <= 47)%nat /\
  exists inputs : list Input,
    spriteRect (game (exec (Run inputs) (start 300 100))) =
    mkRect 670 470 spriteWidth spriteHeight.
Proof.
  split; [lia|]. split; [lia|].
  exact (sprite_grid_reachable 300 100 black (fun _ => 0) 67 47
           ltac:(lia) ltac:(lia)).
Defined.

(** ** More on the text *)

Lemma moveText_constants (w : World) :
  fontSize (game (exec moveText w)) = fontSize (game w) /\
  fontColor (game (exec moveText w)) = fontColor (game w) /\
  textVelocity (game (exec moveText w)) = textVelocity (game w).
Proof.
  destruct w as [[fs fc [x y tw th] tv vx vy sr sv] dc mp mpa rd tr].
  prog_unfold. prog_simpl. prog_case; prog_case; repeat split; reflexivity.
Qed.

Lemma text_shape_moveText (tw th : Z) (w : World) :
  text_shape tw th (game w) -> text_shape tw th (game (exec moveText w)).
Proof.
  destruct (moveText_effect w) as (Hr & Hvx & Hvy & _ & _ & Hsv).
  destruct (moveText_constants w) as (Hfs & _ & Htv).
  cbv zeta in Hr, Hvx, Hvy, Hsv.
  intros (Fs & Tv & Sv & Hw & Hh & Hx & Hy). unfold text_shape.
  rewrite Hfs, Htv, Hsv, Hvx, Hvy, Hr. cbn [W H].
  assert (Hn2 : Int.neg 2 = -2) by reflexivity.
  assert (Hn2' : Int.neg (-2) = 2) by reflexivity.
  repeat (split; [assumption|]). split.
  - destruct Hx as [-> | ->];
      match goal with |- context [if ?b then _ else _] => destruct b end;
      rewrite ?Hn2, ?Hn2'; auto.
  - destruct Hy as [-> | ->];
      match goal with |- context [if ?b then _ else _] => destruct b end;
      rewrite ?Hn2, ?Hn2'; auto.
Qed.

Lemma text_shape_moveSprite (tw th : Z) (kb : list Z) (w : World) :
  text_shape tw th (game w) ->
  text_shape tw th (game (exec (moveSprite kb) w)).
Proof.
  destruct (moveSprite_only_moves kb w) as (x & y & Hg & _). cbv zeta in Hg.
  rewrite Hg. unfold text_shape. cbn. tauto.
Qed.

(** Whatever the inputs, [Run] keeps the font size, the velocity steps and
    the size of the text rectangle of [Init], and the two velocities of the
    text are always 2 or -2: the text never stops and never speeds up. *)
Theorem text_speed_constant (tw th : Z) (c : Color) (src : nat -> Z)
        (inputs : list Input) :
  let g := game (exec (Run inputs) (initial tw th c src)) in
  fontSize g = 80 /\ textVelocity g = 2 /\ spriteVelocity g = 10 /\
  W (textRect g) = tw /\ H (textRect g) = th /\
  (textXVelocity g = 2 \/ textXVelocity g = -2) /\
  (textYVelocity g = 2 \/ textYVelocity g = -2).
Proof.
  cbv zeta. change (text_shape tw th
    (game (exec (Run inputs) (initial tw th c src)))).
  apply Run_preserves.
  - apply text_shape_moveSprite.
  - apply text_shape_moveText.
  - unfold text_shape, Init. cbn. repeat split; auto.
Qed.

Lemma axis_tight_step (bound size pos v : Z) :
  0 <= size <= bound - 3 -> bound <= 4096 -> axis_tight bound size pos v ->
  let pos' := Int.add32 pos (Int.int32 v) in
  let hit := (pos' <=? 0) || (Int.add32 pos' size >=? bound) in
  axis_tight bound size pos' (if hit then Int.neg v else v) /\
  ((pos <=? 0) || (Int.add32 pos size >=? bound) = true -> hit = false).
Proof.
  intros Hs Hb Hn pos' hit. subst pos' hit. unfold axis_tight in *.
  assert (Hn2 : Int.neg 2 = -2) by reflexivity.
  assert (Hn2' : Int.neg (-2) = 2) by reflexivity.
  destruct Hn as [(-> & H0 & H1) | (-> & H0 & H1)]; int_exact;
    match goal with |- context [if ?b then _ else _] => destruct b eqn:E end;
    bool_facts; rewrite ?Hn2, ?Hn2';
    (split; [lia|]); intros Hat; bool_facts; first [reflexivity | lia].
Qed.

Lemma text_tight_moveText (w : World) :
  text_tight (game w) -> text_tight (game (exec moveText w)).
Proof.
  destruct (moveText_effect w) as (Hr & Hvx & Hvy & _). cbv zeta in Hr, Hvx, Hvy.
  intros (Hw & Hh & Hx & Hy). unfold text_tight.
  rewrite Hvx, Hvy, Hr. unfold wallX, wallY. cbn [X Y W H].
  split; [exact Hw|]. split; [exact Hh|]. split.
  - apply (axis_tight_step windowWidth); auto. unfold windowWidth; lia.
  - apply (axis_tight_step windowHeight); auto. unfold windowHeight; lia.
Qed.

Lemma text_tight_moveSprite (kb : list Z) (w : World) :
  text_tight (game w) -> text_tight (game (exec (moveSprite kb) w)).
Proof.
  destruct (moveSprite_only_moves kb w) as (x & y & Hg & _). cbv zeta in Hg.
  rewrite Hg. unfold text_tight. cbn. tauto.
Qed.

Lemma text_tight_Init (tw th : Z) :
  0 <= tw <= windowWidth - 3 -> 0 <= th <= windowHeight - 3 ->
  text_tight (Init tw th).
Proof.
  unfold windowWidth, windowHeight. intros Hw Hh.
  unfold text_tight, axis_tight, Init, Int.div32, windowWidth, windowHeight.
  cbn [textRect textXVelocity textYVelocity X Y W H].
  pose proof (Z.quot_div_nonneg (800 - tw) 2 ltac:(lia) ltac:(lia)) as Qx.
  pose proof (Z.quot_div_nonneg (600 - th) 2 ltac:(lia) ltac:(lia)) as Qy.
  assert (Bx : 0 <= (800 - tw) / 2 /\ 2 * ((800 - tw) / 2) <= 800 - tw)
    by (Z.to_euclidean_division_equations; lia).
  assert (By : 0 <= (600 - th) / 2 /\ 2 * ((600 - th) / 2) <= 600 - th)
    by (Z.to_euclidean_division_equations; lia).
  unfold Int.sub32. rewrite (int32_exact (800 - tw)), (int32_exact (600 - th))
    by (unfold Int.is_int32; lia).
  rewrite Qx, Qy.
  rewrite (int32_exact ((800 - tw) / 2)), (int32_exact ((600 - th) / 2))
    by (unfold Int.is_int32; lia).
  lia.
Qed.

(** A text at least three pixels smaller than the window never bounces off
    the same wall pair in two passes in a row: when the text of a state that
    [Run] reaches is at a wall of an axis (its last move flipped that
    velocity), the next call of [moveText] leaves it at no wall of that
    axis, so it plays no sound for that axis and keeps that velocity. *)
Theorem text_bounces_apart (tw th : Z) (c : Color) (src : nat -> Z)
        (inputs : list Input) :
  0 <= tw <= windowWidth - 3 -> 0 <= th <= windowHeight - 3 ->
  let w := exec (Run inputs) (initial tw th c src) in
  let w' := exec moveText w in
  (wallX (textRect (game w)) = true ->
   wallX (textRect (game w')) = false /\
   textXVelocity (game w') = textXVelocity (game w)) /\
  (wallY (textRect (game w)) = true ->
   wallY (textRect (game w')) = false /\
   textYVelocity (game w') = textYVelocity (game w)).
Proof.
  intros Hw Hh w w'.
  assert (Ht : text_tight (game w)).
  { apply Run_preserves.
    - apply text_tight_moveSprite.
    - apply text_tight_moveText.
    - apply text_tight_Init; assumption. }
  destruct (moveText_effect w) as (Hr & Hvx & Hvy & _).
  cbv zeta in Hr, Hvx, Hvy. fold w' in Hr, Hvx, Hvy.
  destruct Ht as (Tw & Th & Tx & Ty).
  pose proof (axis_tight_step windowWidth _ _ _ Tw
                ltac:(unfold windowWidth; lia) Tx) as (_ & Ax).
  pose proof (axis_tight_step windowHeight _ _ _ Th
                ltac:(unfold windowHeight; lia) Ty) as (_ & Ay).
  cbv zeta in Ax, Ay.
  split; intros Hat.
  - assert (Hn : wallX (textRect (game w')) = false).
    { rewrite Hr. unfold wallX. cbn [X W]. apply Ax. exact Hat. }
    rewrite Hn in Hvx. auto.
  - assert (Hn : wallY (textRect (game w')) = false).
    { rewrite Hr. unfold wallY. cbn [Y H]. apply Ay. exact Hat. }
    rewrite Hn in Hvy. auto.
Qed.

Lemma text_bounces_apart_witness :
  (0 <= 300 <= windowWidth - 3 /\ 0 <= 100 <= windowHeight - 3) /\
  let w := exec (Run (repeat noInput 125)) (start 300 100) in
  wallX (textRect (game w)) = true /\
  wallX (textRect (game (exec moveText w))) = false.
Proof.
  assert (Hw : 0 <= 300 <= windowWidth - 3) by (unfold windowWidth; lia).
  assert (Hh : 0 <= 100 <= windowHeight - 3) by (unfold windowHeight; lia).
  split; [split; assumption|].
  destruct (text_bounces_apart 300 100 black (fun _ => 0)
              (repeat noInput 125) Hw Hh) as (Hx & _).
  assert (Hat : wallX (textRect (game (exec (Run (repeat noInput 125))
                  (start 300 100)))) = true) by (vm_compute; reflexivity).
  split; [exact Hat|]. apply (Hx Hat).
Defined.

(** ** Start-up and tear-down *)

Ltac life_unfold :=
  unfold Life.main, Life.NewGame, Life.Init, Life.initSDL, Life.closeSDL,
    Life.Close, Life.RunIn, Life.defer, Life.orReturn, Life.attempt,
    Life.lwhen, Life.lbind, Life.lret, Life.panic, Life.getObj, Life.modify,
    Life.step.

Ltac life_simpl :=
  cbn [fst snd Life.obj Life.log Life.isNil negb app
       Life.attempts Life.first_failure Life.report Life.message
       Life.libraries Life.assets] in *.

Ltac life_case :=
  match goal with
  | |- context [match ?f ?r with Some _ => _ | None => _ end] =>
      lazymatch type of r with
      | Life.Resource => let E := fresh "E" in destruct (f r) eqn:E; life_simpl
      end
  end.

Lemma first_failure_none (fails : Life.Resource -> option string)
      (rs : list Life.Resource) :
  Life.first_failure fails rs = None <-> Forall (fun r => fails r = None) rs.
Proof.
  induction rs as [|r rs IH]; cbn.
  - split; [constructor | reflexivity].
  - destruct (fails r) eqn:E.
    + split; [discriminate|]. intros H. inversion H; congruence.
    + rewrite IH. split; [intros H; constructor; assumption|].
      intros H. inversion H; assumption.
Qed.

Lemma initSDL_run (fails : Life.Resource -> option string) (p : Life.Proc) :
  Life.initSDL fails p =
  (Life.Done (Life.report (Life.first_failure fails Life.libraries)),
   Life.mkProc (Life.obj p)
               (Life.log p ++ Life.attempts fails Life.libraries)).
Proof.
  life_unfold. life_simpl.
  repeat life_case; rewrite <- ?app_assoc; reflexivity.
Qed.

(** [initSDL] initialises the four libraries in the order SDL2, SDL_image,
    SDL_ttf, SDL_mixer and stops at the first that fails: its result is the
    error of that one behind the text of its call site, the later ones are
    not attempted, the earlier ones are left initialised; it returns nil
    exactly when all four went through. *)
Theorem initSDL_first_failure (fails : Life.Resource -> option string)
        (p : Life.Proc) :
  let r := Life.initSDL fails p in
  fst r = Life.Done (Life.report (Life.first_failure fails Life.libraries)) /\
  Life.log (snd r) = Life.log p ++ Life.attempts fails Life.libraries /\
  Life.obj (snd r) = Life.obj p /\
  (fst r = Life.Done None <->
   Forall (fun l => fails l = None) Life.libraries).
Proof.
  cbv zeta. rewrite initSDL_run. cbn [fst snd Life.obj Life.log].
  repeat (split; [reflexivity|]).
  rewrite <- first_failure_none.
  destruct (Life.first_failure fails Life.libraries) as [[l e]|]; cbn;
    split; intros H; congruence.
Qed.

(** What [Init] does, whatever fails. *)
Lemma Init_run (fails : Life.Resource -> option string) (tw th : Z)
      (p : Life.Proc) :
  let r := Life.Init fails tw th p in
  exists new : list Life.Step,
    fst r = Life.Done (Life.report (Life.first_failure fails Life.assets)) /\
    Life.log (snd r) = Life.log p ++ new /\
    filter (fun s => match s with
                     | Life.Opened _ | Life.Failed _ => true
                     | _ => false
                     end) new = Life.attempts fails Life.assets /\
    Life.closes Life.TextSurface new = Life.opens Life.TextSurface new /\
    (forall a, a <> Life.TextSurface -> Life.closes a new = O) /\
    (Life.opens Life.TextSurface new <> O ->
     last new Life.IconSet = Life.Closed Life.TextSurface) /\
    filter Life.is_loop_step new = [].
Proof.
  cbv zeta. life_unfold. life_simpl.
  repeat life_case; eexists;
    (split; [reflexivity|]);
    (split; [rewrite <- ?app_assoc; cbn [app]; reflexivity|]);
    (split; [reflexivity|]);
    (split; [reflexivity|]);
    (split; [intros a Ha; destruct a; try reflexivity; congruence|]);
    (split; [cbn; first [reflexivity | congruence]|]);
    reflexivity.
Qed.

(** [Init] attempts its twelve call sites in order and returns at the first
    that fails, with the error of that one behind the text of its call site,
    or nil when all went through.  It releases nothing it acquired, with one
    exception: the surface of the rendered text is freed, once, as the last
    step, exactly when it was created. *)
Theorem Init_first_failure (fails : Life.Resource -> option string)
        (tw th : Z) (p : Life.Proc) :
  let r := Life.Init fails tw th p in
  exists new : list Life.Step,
    fst r = Life.Done (Life.report (Life.first_failure fails Life.assets)) /\
    Life.log (snd r) = Life.log p ++ new /\
    filter (fun s => match s with
                     | Life.Opened _ | Life.Failed _ => true
                     | _ => false
                     end) new = Life.attempts fails Life.assets /\
    Life.closes Life.TextSurface new = Life.opens Life.TextSurface new /\
    (forall a, a <> Life.TextSurface -> Life.closes a new = O) /\
    (Life.opens Life.TextSurface new <> O ->
     last new Life.IconSet = Life.Closed Life.TextSurface).
Proof.
  destruct (Init_run fails tw th p)
    as (new & Hr & Hl & Ha & Hc & Hn & Hlast & _).
  exists new. auto 10.
Qed.

(** [NewGame] panics with the error of [Init] when a call site fails and
    returns otherwise.  Either way the handles of the struct that are not
    nil are exactly the ones [Init] acquired before it stopped; and when
    nothing fails, the data of the struct is the game the loop starts
    from. *)
Theorem NewGame_outcome (fails : Life.Resource -> option string)
        (tw th : Z) (p : Life.Proc) :
  let r := Life.NewGame fails tw th p in
  fst r = match Life.report (Life.first_failure fails Life.assets) with
          | Some m => Life.Panic m
          | None => Life.Done tt
          end /\
  (forall h, Life.holds (Life.obj (snd r)) h = true <->
             In h Life.handles /\
             In (Life.Opened h) (Life.attempts fails Life.assets)) /\
  (Life.first_failure fails Life.assets = None ->
   Life.toGame (Life.obj (snd r)) = Some (Init tw th)).
Proof.
  cbv zeta. life_unfold. life_simpl.
  repeat life_case; (split; [reflexivity|]); split;
    try (intros; first [reflexivity | discriminate]);
    intros h; destruct h; cbn; intuition (try discriminate; try congruence).
Qed.

Lemma Close_run (p : Life.Proc) :
  let r := Life.Close true p in
  fst r = Life.Done tt /\
  Life.log (snd r) =
    Life.log p ++ [Life.MusicHalted; Life.ChannelHalted (-1)] ++
    map Life.Closed (filter (Life.holds (Life.obj p)) Life.handles) /\
  Life.obj (snd r) = Life.setTextRect None (Life.obj p).
Proof.
  destruct p as [[wi re ba ic fs fc te tr tv vx vy sp sr sv cg cs mu] lg].
  cbv zeta. life_unfold.
  cbn [fst snd Life.obj Life.log negb Life.window Life.renderer
       Life.background Life.icon Life.text Life.sprite Life.chunkGo
       Life.chunkSDL Life.music Life.textRect Life.holds Life.handles].
  split; [|split].
  - destruct wi, re, ba, ic, tr, te, sp, cg, cs, mu; reflexivity.
  - destruct wi, re, ba, ic, tr, te, sp, cg, cs, mu;
      cbn; rewrite <- ?app_assoc; reflexivity.
  - destruct wi, re, ba, ic, tr, te, sp, cg, cs, mu; reflexivity.
Qed.

(** [Close] on a nil receiver does nothing.  Otherwise it halts the music
    and all channels and then releases exactly the handles of the struct
    that are not nil, in the order window, renderer, background, icon, text,
    sprite, the two chunks, music; it sets the text rectangle to nil and
    leaves every handle as it was. *)
Theorem Close_releases_held (p : Life.Proc) :
  Life.Close false p = (Life.Done tt, p) /\
  let r := Life.Close true p in
  fst r = Life.Done tt /\
  Life.log (snd r) =
    Life.log p ++ [Life.MusicHalted; Life.ChannelHalted (-1)] ++
    map Life.Closed (filter (Life.holds (Life.obj p)) Life.handles) /\
  Life.textRect (Life.obj (snd r)) = None /\
  (forall h, Life.holds (Life.obj (snd r)) h = Life.holds (Life.obj p) h).
Proof.
  split; [reflexivity|]. cbv zeta.
  destruct (Close_run p) as (Hr & Hl & Ho). cbv zeta in Hr, Hl, Ho.
  rewrite Hr, Hl, Ho. repeat (split; [reflexivity|]).
  intros h. destruct h; reflexivity.
Qed.

(** [Close] does not forget what it released: a second call halts the music
    and the channels again and releases every handle a second time. *)
Theorem Close_twice_releases_twice (p : Life.Proc) :
  let released :=
    [Life.MusicHalted; Life.ChannelHalted (-1)] ++
    map Life.Closed (filter (Life.holds (Life.obj p)) Life.handles) in
  Life.log (snd (Life.Close true (snd (Life.Close true p)))) =
    Life.log p ++ released ++ released /\
  (forall h, Life.holds (Life.obj p) h = true ->
             Life.closes h
               (released ++ released) = 2%nat).
Proof.
  cbv zeta. split.
  - destruct (Close_run p) as (_ & Hl & Ho). cbv zeta in Hl, Ho.
    destruct (Close_run (snd (Life.Close true p))) as (_ & Hl2 & _).
    cbv zeta in Hl2. rewrite Hl2, Hl, Ho, <- !app_assoc.
    assert (Hh : filter (Life.holds (Life.setTextRect None (Life.obj p)))
                   Life.handles =
                 filter (Life.holds (Life.obj p)) Life.handles) by reflexivity.
    rewrite Hh. reflexivity.
  - intros h Hh.
    destruct (Life.obj p)
      as [wi re ba ic fs fc te tr tv vx vy sp sr sv cg cs mu].
    destruct h; cbn in Hh; try discriminate Hh; subst;
      cbn [Life.holds Life.handles filter Life.window Life.renderer
           Life.background Life.icon Life.text Life.sprite Life.chunkGo
           Life.chunkSDL Life.music];
      repeat match goal with
        | |- context [if ?b then _ else _] => is_var b; destruct b
        end; reflexivity.
Qed.

Lemma Run_status (inputs : list Input) (w : World) :
  fst (Run inputs w) = if existsb quits inputs then TERMINATED else RUNNING.
Proof. unfold Run. rewrite !fst_bind. apply loop_status. Qed.

(** How the control of the process composes. *)
Lemma lbind_done {T U} (m : Life.L T) (k : T -> Life.L U) (p p' : Life.Proc)
      (x : T) :
  m p = (Life.Done x, p') -> Life.lbind m k p = k x p'.
Proof. intros H. unfold Life.lbind. rewrite H. reflexivity. Qed.

Lemma lbind_panic {T U} (m : Life.L T) (k : T -> Life.L U)
      (p p' : Life.Proc) (e : string) :
  m p = (Life.Panic e, p') -> Life.lbind m k p = (Life.Panic e, p').
Proof. intros H. unfold Life.lbind. rewrite H. reflexivity. Qed.

Lemma defer_done {T} (d : Life.L unit) (rest : Life.L T) (p p' : Life.Proc)
      (x : T) :
  rest p = (Life.Done x, p') ->
  Life.defer d rest p = (Life.Done x, snd (d p')).
Proof. intros H. unfold Life.defer. rewrite H. reflexivity. Qed.

Lemma defer_panic {T} (d : Life.L unit) (rest : Life.L T) (p p' : Life.Proc)
      (e : string) :
  rest p = (Life.Panic e, p') ->
  Life.defer d rest p = (Life.Panic e, snd (d p')).
Proof. intros H. unfold Life.defer. rewrite H. reflexivity. Qed.

Lemma defer_blocked {T} (d : Life.L unit) (rest : Life.L T)
      (p p' : Life.Proc) :
  rest p = (Life.Blocked, p') -> Life.defer d rest p = (Life.Blocked, p').
Proof. intros H. unfold Life.defer. rewrite H. reflexivity. Qed.

Lemma closeSDL_run (p : Life.Proc) :
  Life.closeSDL p =
  (Life.Done tt,
   Life.mkProc (Life.obj p) (Life.log p ++ map Life.Closed Life.shutdown)).
Proof.
  life_unfold. cbn [fst snd Life.obj Life.log]. rewrite <- !app_assoc.
  reflexivity.
Qed.

(** The struct that [NewGame] returns when nothing fails. *)
Lemma NewGame_ok (fails : Life.Resource -> option string) (tw th : Z)
      (p : Life.Proc) :
  Life.first_failure fails Life.assets = None ->
  exists o,
    Life.NewGame fails tw th p =
      (Life.Done tt,
       Life.mkProc o
         (Life.log p ++
          map Life.Opened [Life.Window; Life.Renderer; Life.BackgroundTex;
                           Life.IconSurface] ++
          [Life.IconSet] ++
          map Life.Opened [Life.Font; Life.TextSurface; Life.TextTex;
                           Life.SpriteTex; Life.Audio; Life.GoChunk;
                           Life.SDLChunk; Life.Music] ++
          [Life.Closed Life.TextSurface])) /\
    Life.toGame o = Some (Init tw th) /\
    forall d, filter (Life.holds (Life.withData o d)) Life.handles =
              Life.handles.
Proof.
  intros Hok. cbn [Life.first_failure Life.assets] in Hok.
  life_unfold. life_simpl.
  repeat match goal with
    | H : context [match ?f ?r with Some _ => _ | None => _ end] |- _ =>
        lazymatch type of r with
        | Life.Resource =>
            let E := fresh "E" in
            destruct (f r) eqn:E; [discriminate H|]; life_simpl
        end
    end.
  eexists. split; [rewrite <- ?app_assoc; cbn [app map]; reflexivity|].
  split; [reflexivity|]. intros [fs fc tr tv vx vy sr sv]. reflexivity.
Qed.

Lemma NewGame_fails (fails : Life.Resource -> option string) (tw th : Z)
      (p : Life.Proc) (a : Life.Resource) (e : string) :
  Life.first_failure fails Life.assets = Some (a, e) ->
  exists new,
    Life.NewGame fails tw th p =
      (Life.Panic (String.append (Life.message a) e),
       Life.mkProc (Life.obj (snd (Life.NewGame fails tw th p)))
                   (Life.log p ++ new)) /\
    (forall h, In h Life.handles -> Life.closes h new = O) /\
    Life.closes Life.Audio new = O /\
    Life.opens Life.Audio new =
      (if existsb (Life.Resource_beq a)
            [Life.GoChunk; Life.SDLChunk; Life.Music] then 1 else 0)%nat /\
    (forall l, In l Life.libraries ->
               Life.closes l new = O /\ Life.opens l new = O) /\
    filter Life.is_loop_step new = [].
Proof.
  intros Hf. cbn [Life.first_failure Life.assets] in Hf.
  life_unfold. life_simpl.
  repeat match goal with
    | H : context [match ?f ?r with Some _ => _ | None => _ end] |- _ =>
        lazymatch type of r with
        | Life.Resource =>
            let E := fresh "E" in
            destruct (f r) eqn:E; life_simpl
        end
    end; try discriminate Hf;
    injection Hf as <- <-; eexists;
    (split; [rewrite <- ?app_assoc; cbn [app]; reflexivity|]);
    (split; [intros h Hh; cbn in Hh;
             repeat (destruct Hh as [<- | Hh]; [reflexivity|]);
             contradiction|]);
    (split; [reflexivity|]); (split; [reflexivity|]);
    (split; [intros l Hl; cbn in Hl;
             repeat (destruct Hl as [<- | Hl]; [split; reflexivity|]);
             contradiction|]);
    reflexivity.
Qed.

Lemma RunIn_run (c : Color) (src : nat -> Z) (inputs : list Input)
      (p : Life.Proc) (g : Game) :
  Life.toGame (Life.obj p) = Some g ->
  let w := mkWorld g c false false (mkRand src 0) [] in
  Life.RunIn c src inputs p =
  (if existsb quits inputs then Life.Done tt else Life.Blocked,
   Life.mkProc (Life.withData (Life.obj p) (game (exec (Run inputs) w)))
               (Life.log p ++ map Life.InLoop (trace (exec (Run inputs) w)))).
Proof.
  intros Hg. cbv zeta. unfold Life.RunIn. rewrite Hg, Run_status.
  destruct (existsb quits inputs); reflexivity.
Qed.
Lemma filter_map_InLoop (f : Life.Step -> bool) (l : list Call) :
  (forall c, f (Life.InLoop c) = false) ->
  filter f (map Life.InLoop l) = [].
Proof.
  intros Hf. induction l as [|c l IH]; [reflexivity|].
  cbn. rewrite Hf. exact IH.
Qed.

Lemma opens_app (a : Life.Resource) (l k : list Life.Step) :
  Life.opens a (l ++ k) = (Life.opens a l + Life.opens a k)%nat.
Proof. unfold Life.opens. rewrite filter_app, length_app. reflexivity. Qed.

Lemma closes_app (a : Life.Resource) (l k : list Life.Step) :
  Life.closes a (l ++ k) = (Life.closes a l + Life.closes a k)%nat.
Proof. unfold Life.closes. rewrite filter_app, length_app. reflexivity. Qed.

Lemma opens_InLoop (a : Life.Resource) (l : list Call) :
  Life.opens a (map Life.InLoop l) = O.
Proof. unfold Life.opens. rewrite filter_map_InLoop; reflexivity. Qed.

Lemma closes_InLoop (a : Life.Resource) (l : list Call) :
  Life.closes a (map Life.InLoop l) = O.
Proof. unfold Life.closes. rewrite filter_map_InLoop; reflexivity. Qed.


Lemma attempts_ok (fails : Life.Resource -> option string)
      (rs : list Life.Resource) :
  Life.first_failure fails rs = None ->
  Life.attempts fails rs = map Life.Opened rs.
Proof.
  induction rs as [|r rs IH]; [reflexivity|]. cbn.
  destruct (fails r); [discriminate|]. intros H. rewrite (IH H). reflexivity.
Qed.

Lemma all_ok (fails : Life.Resource -> option string)
      (rs : list Life.Resource) :
  (forall a, fails a = None) -> Life.first_failure fails rs = None.
Proof.
  intros Hall. induction rs as [|r rs IH]; [reflexivity|].
  cbn. rewrite Hall. exact IH.
Qed.

(** When no call site fails and some pass quits, [main] returns; its log is
    the start-up, the calls of [Run] on the game of [Init], then [Close] and
    [closeSDL] in that order.  Every resource was opened once, and every
    resource was closed once, except the font, which is never closed. *)
Theorem main_exits_balanced (fails : Life.Resource -> option string)
        (tw th : Z) (c : Color) (src : nat -> Z) (inputs : list Input) :
  (forall a, fails a = None) ->
  existsb quits inputs = true ->
  let r := Life.main fails tw th c src inputs Life.boot in
  fst r = Life.Done tt /\
  Life.log (snd r) =
    map Life.Opened Life.libraries ++
    map Life.Opened [Life.Window; Life.Renderer; Life.BackgroundTex;
                     Life.IconSurface] ++
    [Life.IconSet] ++
    map Life.Opened [Life.Font; Life.TextSurface; Life.TextTex;
                     Life.SpriteTex; Life.Audio; Life.GoChunk; Life.SDLChunk;
                     Life.Music] ++
    [Life.Closed Life.TextSurface] ++
    map Life.InLoop (trace (exec (Run inputs) (initial tw th c src))) ++
    [Life.MusicHalted; Life.ChannelHalted (-1)] ++
    map Life.Closed Life.handles ++ map Life.Closed Life.shutdown /\
  (forall a, Life.opens a (Life.log (snd r)) = 1%nat) /\
  (forall a, Life.closes a (Life.log (snd r)) =
             if Life.Resource_beq a Life.Font then O else 1%nat).
Proof.
  intros Hall Hq. cbv zeta.
  destruct (NewGame_ok fails tw th
              (Life.mkProc Life.zeroGame (map Life.Opened Life.libraries))
              (all_ok fails Life.assets Hall)) as (o & Hn & Hg & Hh).
  assert (Hm : Life.main fails tw th c src inputs Life.boot =
    (Life.Done tt,
     Life.mkProc
       (Life.setTextRect None
          (Life.withData o (game (exec (Run inputs) (initial tw th c src)))))
       (map Life.Opened Life.libraries ++
        map Life.Opened [Life.Window; Life.Renderer; Life.BackgroundTex;
                         Life.IconSurface] ++
        [Life.IconSet] ++
        map Life.Opened [Life.Font; Life.TextSurface; Life.TextTex;
                         Life.SpriteTex; Life.Audio; Life.GoChunk;
                         Life.SDLChunk; Life.Music] ++
        [Life.Closed Life.TextSurface] ++
        map Life.InLoop (trace (exec (Run inputs) (initial tw th c src))) ++
        [Life.MusicHalted; Life.ChannelHalted (-1)] ++
        map Life.Closed Life.handles ++ map Life.Closed Life.shutdown))).
  { cbn [Life.log] in Hn.
    match type of Hn with _ = (_, ?q) => set (p2 := q) in * end.
    pose proof (RunIn_run c src inputs p2 (Init tw th) Hg) as Hrun.
    cbv zeta in Hrun. rewrite Hq in Hrun.
    change (mkWorld (Init tw th) c false false (mkRand src 0) [])
      with (initial tw th c src) in Hrun.
    match type of Hrun with _ = (_, ?q) => set (p3 := q) in * end.
    destruct (Close_run p3) as (Hc1 & Hc2 & Hc3). cbv zeta in Hc1, Hc2, Hc3.
    assert (Hinit : Life.initSDL fails Life.boot =
              (Life.Done None,
               Life.mkProc Life.zeroGame (map Life.Opened Life.libraries))).
    { rewrite initSDL_run, (all_ok fails Life.libraries Hall),
        (attempts_ok fails _ (all_ok fails Life.libraries Hall)).
      reflexivity. }
    unfold Life.main. rewrite (lbind_done _ _ _ _ _ Hinit).
    assert (Hbody : Life.lbind (Life.NewGame fails tw th)
               (fun _ => Life.defer (Life.Close true)
                           (Life.RunIn c src inputs))
               (Life.mkProc Life.zeroGame (map Life.Opened Life.libraries)) =
             (Life.Done tt, snd (Life.Close true p3))).
    { rewrite (lbind_done _ _ _ _ _ Hn). apply defer_done. exact Hrun. }
    rewrite (defer_done _ _ _ _ _ Hbody), closeSDL_run. f_equal.
    rewrite Hc2, Hc3. unfold p3, p2. cbn [Life.obj Life.log].
    rewrite Hh, <- !app_assoc. reflexivity. }
  rewrite Hm. cbn [fst snd Life.log].
  split; [reflexivity|]. split; [reflexivity|].
  split; intros a;
    rewrite ?opens_app, ?closes_app, ?opens_InLoop, ?closes_InLoop;
    destruct a; reflexivity.
Qed.

Lemma main_exits_balanced_witness :
  let fails := fun _ : Life.Resource => @None string in
  let inputs := [noInput; mkInput [QuitEvent] (keysDown [])] in
  (forall a, fails a = None) /\ existsb quits inputs = true /\
  fst (Life.main fails 300 100 black (fun _ => 0) inputs Life.boot) =
    Life.Done tt.
Proof.
  intros fails inputs.
  assert (Hall : forall a, fails a = None) by reflexivity.
  assert (Hq : existsb quits inputs = true) by reflexivity.
  destruct (main_exits_balanced fails 300 100 black (fun _ => 0) inputs
              Hall Hq) as (Hr & _).
  auto.
Defined.

(** When the libraries start and a call site of [Init] fails, [main] panics
    with the error of [Init]; the loop never runs; [closeSDL] still runs,
    so each library is closed once and the audio device is closed whether
    or not it was ever opened; none of the handles that [Init] had acquired
    before the failure is released. *)
Theorem main_asset_failure (fails : Life.Resource -> option string)
        (tw th : Z) (c : Color) (src : nat -> Z) (inputs : list Input)
        (a : Life.Resource) (e : string) :
  Life.first_failure fails Life.libraries = None ->
  Life.first_failure fails Life.assets = Some (a, e) ->
  let r := Life.main fails tw th c src inputs Life.boot in
  fst r = Life.Panic (String.append (Life.message a) e) /\
  filter Life.is_loop_step (Life.log (snd r)) = [] /\
  (forall h, In h Life.handles -> Life.closes h (Life.log (snd r)) = O) /\
  (forall l, In l Life.libraries ->
             Life.opens l (Life.log (snd r)) = 1%nat /\
             Life.closes l (Life.log (snd r)) = 1%nat) /\
  Life.closes Life.Audio (Life.log (snd r)) = 1%nat /\
  Life.opens Life.Audio (Life.log (snd r)) =
    (if existsb (Life.Resource_beq a)
          [Life.GoChunk; Life.SDLChunk; Life.Music] then 1 else 0)%nat.
Proof.
  intros Hlib Hf. cbv zeta.
  destruct (NewGame_fails fails tw th
              (Life.mkProc Life.zeroGame (map Life.Opened Life.libraries))
              a e Hf) as (new & Hn & Hh & Hca & Hoa & Hl & Hloop).
  cbn [Life.log] in Hn.
  match type of Hn with _ = (_, ?q) => set (p2 := q) in * end.
  assert (Hinit : Life.initSDL fails Life.boot =
            (Life.Done None,
             Life.mkProc Life.zeroGame (map Life.Opened Life.libraries))).
  { rewrite initSDL_run, Hlib, (attempts_ok fails _ Hlib). reflexivity. }
  assert (Hm : Life.main fails tw th c src inputs Life.boot =
            (Life.Panic (String.append (Life.message a) e),
             Life.mkProc (Life.obj p2)
               (map Life.Opened Life.libraries ++ new ++
                map Life.Closed Life.shutdown))).
  { unfold Life.main. rewrite (lbind_done _ _ _ _ _ Hinit).
    assert (Hbody : Life.lbind (Life.NewGame fails tw th)
               (fun _ => Life.defer (Life.Close true)
                           (Life.RunIn c src inputs))
               (Life.mkProc Life.zeroGame (map Life.Opened Life.libraries)) =
             (Life.Panic (String.append (Life.message a) e), p2)).
    { apply lbind_panic. exact Hn. }
    rewrite (defer_panic _ _ _ _ _ Hbody), closeSDL_run.
    unfold p2. cbn [Life.obj Life.log]. rewrite <- !app_assoc. reflexivity. }
  rewrite Hm. cbn [fst snd Life.log]. split; [reflexivity|].
  split.
  { rewrite !filter_app, Hloop. reflexivity. }
  split.
  { intros h Hin. rewrite !closes_app, (Hh h Hin).
    cbn in Hin. repeat (destruct Hin as [<- | Hin]; [reflexivity|]).
    contradiction. }
  split.
  { intros l Hin. rewrite !opens_app, !closes_app.
    destruct (Hl l Hin) as (-> & ->).
    cbn in Hin. repeat (destruct Hin as [<- | Hin]; [split; reflexivity|]).
    contradiction. }
  rewrite !opens_app, !closes_app, Hca, Hoa. split; [reflexivity|].
  cbn. lia.
Qed.

Lemma main_asset_failure_witness :
  let fails := fun a : Life.Resource =>
                 match a with
                 | Life.SpriteTex => Some "no such file"%string
                 | _ => None
                 end in
  Life.first_failure fails Life.libraries = None /\
  Life.first_failure fails Life.assets =
    Some (Life.SpriteTex, "no such file"%string) /\
  fst (Life.main fails 300 100 black (fun _ => 0) [noInput] Life.boot) =
    Life.Panic "Error loading sprite image: no such file" /\
  Life.closes Life.Window
    (Life.log (snd (Life.main fails 300 100 black (fun _ => 0) [noInput]
                      Life.boot))) = O.
Proof.
  intros fails.
  assert (Hl : Life.first_failure fails Life.libraries = None) by reflexivity.
  assert (Hf : Life.first_failure fails Life.assets =
               Some (Life.SpriteTex, "no such file"%string)) by reflexivity.
  destruct (main_asset_failure fails 300 100 black (fun _ => 0) [noInput]
              _ _ Hl Hf) as (Hr & _ & Hh & _).
  repeat (split; [assumption|]).
  apply Hh. cbn. auto.
Defined.

(** When a library fails to start, [main] panics with the error of
    [initSDL] before anything is deferred: no asset is attempted, and
    nothing is closed, not even the libraries that had started. *)
Theorem main_library_failure (fails : Life.Resource -> option string)
        (tw th : Z) (c : Color) (src : nat -> Z) (inputs : list Input)
        (a : Life.Resource) (e : string) :
  Life.first_failure fails Life.libraries = Some (a, e) ->
  let r := Life.main fails tw th c src inputs Life.boot in
  fst r = Life.Panic (String.append (Life.message a) e) /\
  Life.log (snd r) = Life.attempts fails Life.libraries /\
  In a Life.libraries /\
  (forall x, Life.closes x (Life.log (snd r)) = O) /\
  (forall x, In x Life.assets -> Life.opens x (Life.log (snd r)) = O).
Proof.
  intros Hf. cbv zeta.
  assert (Hm : Life.main fails tw th c src inputs Life.boot =
            (Life.Panic (String.append (Life.message a) e),
             Life.mkProc Life.zeroGame (Life.attempts fails Life.libraries))).
  { unfold Life.main.
    rewrite (lbind_done _ _ _ _ _ (initSDL_run fails Life.boot)), Hf.
    reflexivity. }
  rewrite Hm. cbn [fst snd Life.log]. split; [reflexivity|].
  split; [reflexivity|].
  cbn [Life.first_failure Life.attempts Life.libraries] in *.
  repeat match goal with
    | H : context [match fails ?r with Some _ => _ | None => _ end] |- _ =>
        destruct (fails r)
    end; try discriminate Hf; injection Hf as <- <-;
    (split; [cbn; tauto|]);
    (split; [intros x; destruct x; reflexivity|]);
    intros x Hx; cbn in Hx;
    repeat (destruct Hx as [<- | Hx]; [reflexivity|]); contradiction.
Qed.

Lemma main_library_failure_witness :
  let fails := fun a : Life.Resource =>
                 match a with
                 | Life.LibTTF => Some "no ttf"%string
                 | _ => None
                 end in
  Life.first_failure fails Life.libraries = Some (Life.LibTTF, "no ttf"%string)
  /\
  fst (Life.main fails 300 100 black (fun _ => 0) [noInput] Life.boot) =
    Life.Panic "Error initializing SDL_ttf: no ttf" /\
  Life.log (snd (Life.main fails 300 100 black (fun _ => 0) [noInput]
                   Life.boot)) =
    [Life.Opened Life.LibSDL; Life.Opened Life.LibIMG;
     Life.Failed Life.LibTTF].
Proof.
  intros fails.
  assert (Hf : Life.first_failure fails Life.libraries =
               Some (Life.LibTTF, "no ttf"%string)) by reflexivity.
  destruct (main_library_failure fails 300 100 black (fun _ => 0) [noInput]
              _ _ Hf) as (Hr & Hl & _).
  split; [exact Hf|]. split; [exact Hr | exact Hl].
Defined.

(** The text before the error tells the call site that failed, except for
    the two sound chunks, which share their text: two errors of [initSDL] or
    [Init] that are the same string come from the same call site or from
    the two chunks. *)
Theorem message_identifies_call_site (a b : Life.Resource) (e1 e2 : string) :
  String.append (Life.message a) e1 = String.append (Life.message b) e2 ->
  a = b \/
  (a = Life.GoChunk /\ b = Life.SDLChunk) \/
  (a = Life.SDLChunk /\ b = Life.GoChunk).
Proof.
  intros H.
  destruct a, b; cbn in H; try discriminate H; auto.
Qed.

Lemma message_identifies_call_site_witness :
  String.append (Life.message Life.GoChunk) "x" =
    String.append (Life.message Life.SDLChunk) "x" /\
  (Life.GoChunk = Life.SDLChunk \/
   (Life.GoChunk = Life.GoChunk /\ Life.SDLChunk = Life.SDLChunk) \/
   (Life.GoChunk = Life.SDLChunk /\ Life.SDLChunk = Life.GoChunk)).
Proof.
  split; [reflexivity|].
  exact (message_identifies_call_site Life.GoChunk Life.SDLChunk "x" "x"
           eq_refl).
Defined.
